(** * AetherFrame: the pipeline orchestration engine

    A shallow embedding of the orchestration core of AetherFrame
    (aetherframe/core/pipeline.py, core/orchestrator.py, core/tasks.py,
    core/repository.py, core/models.py, plugins/registry.py and the
    schemas they exchange), followed by the properties of that code.

    Conventions.
    - A Python dict with string keys is a [gmap string pyval].
    - A float is a canonical rational [Qc]: the engine only compares risk
      scores and takes their maximum, it never does arithmetic on them, so
      the order embedding of the finite floats into the rationals is exact.
    - Code that may raise returns [Exc A]; state that the code mutates is
      passed explicitly and returned together with the outcome, so the
      partial updates made before an exception are kept, as in Python.
    - Record fields carry a short prefix of their class ([pr_] for
      PluginResult, [per_] for PipelineExecutionResult, [te_] for
      TraceEvent, ...) followed by the source's attribute name. *)

From Stdlib Require Import QArith Qcanon.
From stdpp Require Import gmap strings list pretty numbers.

(** ** Python values and exceptions *)

#[warnings="-register-all"]
Inductive pyval : Type :=
| VNone
| VBool (b : bool)
| VInt (z : Z)
| VFloat (q : Qc)
| VStr (s : string)
| VList (l : list pyval).

Abbreviation dict := (gmap string pyval).

Inductive exn_kind : Type :=
| ValueError | KeyError | TypeError | ImportError
| PluginValidationError | PluginExecutionError
| ValidationError | StoreError | PendingRollbackError | RuntimeError
| RecursionError.

(** An exception: its class and [str(e)]. *)
Record exn : Type := Exn { exn_class : exn_kind; exn_str : string }.

Definition Exc (A : Type) : Type := exn + A.

(** [a >= q] for a dict value [a] and a float [q]: numbers (bool, int,
    float) compare by value, anything else raises TypeError. *)
Definition py_ge (a : pyval) (q : Qc) : Exc bool :=
  match a with
  | VBool b => inr (bool_decide (q ≤ (if b then 1 else 0))%Qc)
  | VInt z => inr (bool_decide (q ≤ Q2Qc (inject_Z z))%Qc)
  | VFloat x => inr (bool_decide (q ≤ x)%Qc)
  | _ => inl (Exn TypeError "'>=' not supported")
  end.

(** [max(a, b)] on floats: the first argument wins a tie. *)
Definition py_max (a b : Qc) : Qc :=
  if bool_decide (a < b)%Qc then b else a.

(** ** Schemas (aetherframe/schemas) *)

Module Schemas.

(** schemas/job.py, [JobStatus]. *)
Inductive JobStatus : Type :=
| pending | running | done | failed | cancelled.

#[global] Instance JobStatus_eq_dec : EqDecision JobStatus.
Proof. solve_decision. Defined.

Inductive Severity : Type := info | low | medium | high | critical.

(** schemas/trace_event.py, [EventSource]. *)
Inductive EventSource : Type :=
| src_laintrace | src_mnemosyne | src_umbriel | src_valkyrie | src_noema
| src_orchestrator | src_plugin.

(** schemas/trace_event.py, [EventType]. *)
Inductive EventType : Type :=
| hook_enter | hook_exit | hook_replace
| state_init | state_change | state_snapshot
| memory_read | memory_write | memory_alloc | memory_free | memory_protect
| syscall_enter | syscall_exit
| metric_cpu | metric_memory | metric_io
| stage_start | stage_complete | stage_error
| ev_info | ev_warning | ev_error.

(** schemas/trace_event.py, [TraceEvent].  [te_ts] is the clock reading
    taken by the default factory when the event is built (milliseconds);
    [te_sequence] has the default 0. *)
Record TraceEvent : Type := {
  te_job_id : Z;
  te_ts : Z;
  te_source : EventSource;
  te_event_type : EventType;
  te_payload : dict;
  te_thread_id : option Z;
  te_address : option string;
  te_symbol : option string;
  te_sequence : Z
}.

(** [TraceEvent(job_id=..., source=..., event_type=..., payload=...)]:
    every other field takes its default. *)
Definition mk_TraceEvent (job_id ts : Z) (source : EventSource)
    (event_type : EventType) (payload : dict) : TraceEvent :=
  {| te_job_id := job_id; te_ts := ts; te_source := source;
     te_event_type := event_type; te_payload := payload;
     te_thread_id := None; te_address := None; te_symbol := None;
     te_sequence := 0 |}.

(** schemas/finding.py, [Finding] (evidence and meta are not read by
    the engine and are left out). *)
Record Finding : Type := {
  f_job_id : Z;
  f_severity : Severity;
  f_category : string;
  f_title : string;
  f_description : option string;
  f_confidence : Qc;
  f_tags : list string;
  f_plugin_id : option string;
  f_stage : option string
}.

(** schemas/artifact.py, [Artifact]. *)
Record Artifact : Type := {
  a_job_id : Z;
  a_artifact_type : string;
  a_name : string;
  a_description : option string;
  a_uri : option string;
  a_sha256 : option string;
  a_size_bytes : option Z;
  a_plugin_id : option string;
  a_stage : option string
}.

(** schemas/plugin_result.py, [PluginResult]. *)
Record PluginResult : Type := {
  pr_findings : list Finding;
  pr_artifacts : list Artifact;
  pr_events : list TraceEvent;
  pr_success : bool;
  pr_error : option string;
  pr_skip_remaining : bool;
  pr_risk_score : option Qc;
  pr_context_data : dict
}.

(** schemas/job.py, [Job]. *)
Record Job : Type := {
  job_id : Z;
  job_target : string;
  job_status : JobStatus;
  job_pipeline_id : string;
  job_progress : Z;
  job_error : option string
}.

(** schemas/job.py, [JobContext]. *)
Record JobContext : Type := {
  ctx_job : Job;
  ctx_target_path : string;
  ctx_workspace_dir : string;
  ctx_artifacts_dir : string;
  ctx_previous_findings : list Finding;
  ctx_previous_artifacts : list Artifact;
  ctx_pipeline_context : dict
}.

End Schemas.
Export Schemas.

(** *** The timeline of a job (schemas/trace_event.py, [TraceTimeline]) *)

Module Timeline.

#[global] Instance EventSource_eq_dec : EqDecision EventSource.
Proof. solve_decision. Defined.

Record TraceTimeline : Type := {
  tl_job_id : Z;
  tl_events : list TraceEvent;
  tl_start_ts : option Z;
  tl_end_ts : option Z;
  tl_event_count : Z;
  tl_sources : list EventSource
}.

(** [TraceTimeline(job_id=...)]: every other field takes its default. *)
Definition new_timeline (job_id : Z) : TraceTimeline :=
  {| tl_job_id := job_id; tl_events := []; tl_start_ts := None;
     tl_end_ts := None; tl_event_count := 0; tl_sources := [] |}.

(** [TraceTimeline.add_event(event)] *)
Definition add_event (t : TraceTimeline) (event : TraceEvent)
    : TraceTimeline :=
  {| tl_job_id := tl_job_id t;
     tl_events := tl_events t ++ [event];
     tl_start_ts :=
       match tl_start_ts t with
       | None => Some (te_ts event)
       | Some start =>
           if bool_decide (te_ts event < start)%Z then Some (te_ts event)
           else Some start
       end;
     tl_end_ts :=
       match tl_end_ts t with
       | None => Some (te_ts event)
       | Some finish =>
           if bool_decide (finish < te_ts event)%Z then Some (te_ts event)
           else Some finish
       end;
     tl_event_count := Z.of_nat (length (tl_events t ++ [event]));
     tl_sources :=
       if bool_decide (te_source event ∈ tl_sources t) then tl_sources t
       else tl_sources t ++ [te_source event] |}.

(** What [add_event] keeps true of a timeline: the count is the number
    of events, [start_ts] and [end_ts] are the least and the greatest
    timestamp of the events (and unset when there is none), and
    [sources] lists the sources of the events, each once. *)
Definition timeline_ok (t : TraceTimeline) : Prop :=
  tl_event_count t = Z.of_nat (length (tl_events t))
  ∧ match tl_start_ts t, tl_end_ts t with
    | Some start, Some finish =>
        (∃ e, e ∈ tl_events t ∧ te_ts e = start)
        ∧ (∃ e, e ∈ tl_events t ∧ te_ts e = finish)
        ∧ ∀ e, e ∈ tl_events t → (start ≤ te_ts e ≤ finish)%Z
    | None, None => tl_events t = []
    | _, _ => False
    end
  ∧ NoDup (tl_sources t)
  ∧ ∀ src, src ∈ tl_sources t ↔ ∃ e, e ∈ tl_events t ∧ te_source e = src.

End Timeline.
Export Timeline.

(** ** Plugin registry (aetherframe/plugins/base.py, registry.py) *)

Module Registry.

Record PluginManifest : Type := {
  m_id : string;
  m_name : string;
  m_version : string;
  m_kind : string;
  m_capabilities : list string;
  m_dependencies : list string
}.

(** A [Plugin] subclass: what [validate] and [run] do for an instance
    built with a given config.  [validate] returns the exception it
    raises, if any. *)
Record PluginClass : Type := {
  cls_name : string;
  cls_validate : dict → JobContext → option exn;
  cls_run : dict → JobContext → Exc PluginResult
}.

(** A plugin instance.  [obj_id] is the identity of the Python object:
    two instances are the same object iff their [obj_id] agree. *)
Record Plugin : Type := {
  obj_id : nat;
  p_class : PluginClass;
  p_manifest : PluginManifest;
  p_config : dict
}.

Definition validate (p : Plugin) (ctx : JobContext) : option exn :=
  cls_validate (p_class p) (p_config p) ctx.

Definition run (p : Plugin) (ctx : JobContext) : Exc PluginResult :=
  cls_run (p_class p) (p_config p) ctx.

(** [PluginRegistry]: the three dictionaries of the class, and the
    allocation counter that gives fresh objects their identity. *)
Record PluginRegistry : Type := {
  _plugins : gmap string PluginClass;
  _manifests : gmap string PluginManifest;
  _instances : gmap string Plugin;
  next_obj : nat
}.

(** What the registry takes from its surroundings: Python's [hash] of
    the frozenset of a config's items (TypeError when a value is not
    hashable), and the import of [<plugins_dir>/<id>/plugin.py] with
    the search for the Plugin subclass in it. *)
Record RegistryEnv : Type := {
  hash_items : dict → Exc Z;
  import_plugin : string → Exc PluginClass
}.

Definition load (env : RegistryEnv) (reg : PluginRegistry)
    (plugin_id : string) : PluginRegistry * Exc PluginClass :=
  match _plugins reg !! plugin_id with
  | Some cls => (reg, inr cls)
  | None =>
    match _manifests reg !! plugin_id with
    | None => (reg, inl (Exn KeyError ("Plugin not found: " +:+ plugin_id)))
    | Some _ =>
      match import_plugin env plugin_id with
      | inl e => (reg, inl e)
      | inr cls =>
        ({| _plugins := <[plugin_id := cls]> (_plugins reg);
            _manifests := _manifests reg;
            _instances := _instances reg;
            next_obj := next_obj reg |}, inr cls)
      end
    end
  end.

(** [f"{plugin_id}:{hash(frozenset((config or {}).items()))}"] *)
Definition cache_key (plugin_id : string) (h : Z) : string :=
  plugin_id +:+ ":" +:+ pretty h.

Definition get_instance (env : RegistryEnv) (reg : PluginRegistry)
    (plugin_id : string) (config : option dict)
    : PluginRegistry * Exc Plugin :=
  match hash_items env (default ∅ config) with
  | inl e => (reg, inl e)
  | inr h =>
    let key := cache_key plugin_id h in
    match _instances reg !! key with
    | Some inst => (reg, inr inst)
    | None =>
      let '(reg1, loaded) := load env reg plugin_id in
      match loaded with
      | inl e => (reg1, inl e)
      | inr plugin_class =>
        match _manifests reg1 !! plugin_id with
        | None => (reg1, inl (Exn KeyError plugin_id))
        | Some manifest =>
          let inst := {| obj_id := next_obj reg1;
                         p_class := plugin_class;
                         p_manifest := manifest;
                         p_config := default ∅ config |} in
          ({| _plugins := _plugins reg1;
              _manifests := _manifests reg1;
              _instances := <[key := inst]> (_instances reg1);
              next_obj := S (next_obj reg1) |}, inr inst)
        end
      end
    end
  end.

(** [register_plugin(plugin_class, manifest)] *)
Definition register_plugin (reg : PluginRegistry) (cls : PluginClass)
    (manifest : PluginManifest) : PluginRegistry :=
  {| _plugins := <[m_id manifest := cls]> (_plugins reg);
     _manifests := <[m_id manifest := manifest]> (_manifests reg);
     _instances := _instances reg;
     next_obj := next_obj reg |}.

(** The loop [for dep in m.dependencies: visit(dep)], over a
    [visit] that may raise. *)
Fixpoint visit_all {St : Type} (visit : string → St → option St)
    (deps : list string) (st : St) : option St :=
  match deps with
  | [] => Some st
  | dep :: deps' =>
    match visit dep st with
    | None => None
    | Some st1 => visit_all visit deps' st1
    end
  end.

(** The nested function [visit] of [resolve_dependencies], on the pair
    of its two closure variables, the set [visited] and the list
    [resolved].  [depth] is the number of nested calls the interpreter
    still allows, and [None] is its RecursionError. *)
Fixpoint visit (manifests : gmap string PluginManifest) (depth : nat)
    (pid : string) (st : gset string * list string)
    : option (gset string * list string) :=
  match depth with
  | 0 => None
  | S depth' =>
    if decide (pid ∈ st.1) then Some st
    else
      match manifests !! pid with
      | None => Some ({[pid]} ∪ st.1, st.2)
      | Some m =>
        match visit_all (visit manifests depth') (m_dependencies m)
                ({[pid]} ∪ st.1, st.2) with
        | None => None
        | Some st1 => Some (st1.1, st1.2 ++ [pid])
        end
      end
  end.

(** [resolve_dependencies(plugin_id)], [depth] being the recursion
    limit. *)
Definition resolve_dependencies (reg : PluginRegistry) (depth : nat)
    (plugin_id : string) : Exc (list string) :=
  match _manifests reg !! plugin_id with
  | None => inl (Exn KeyError ("Plugin manifest not found: " +:+ plugin_id))
  | Some _ =>
    match visit (_manifests reg) depth plugin_id (∅, []) with
    | None => inl (Exn RecursionError "maximum recursion depth exceeded")
    | Some st => inr st.2
    end
  end.

Definition empty_registry : PluginRegistry :=
  {| _plugins := ∅; _manifests := ∅; _instances := ∅; next_obj := 0 |}.

End Registry.
Export Registry.

(** ** Pipelines (aetherframe/core/pipeline.py) *)

Module Pipeline.

Inductive StageCondition : Type :=
| always | on_success | on_failure | on_findings | on_high_risk
| conditional.

#[global] Instance StageCondition_eq_dec : EqDecision StageCondition.
Proof. solve_decision. Defined.

Record PipelineStage : Type := {
  stage_name : string;
  stage_plugin_id : string;
  stage_config : dict;
  stage_condition : StageCondition;
  stage_condition_expr : option string;
  stage_timeout_seconds : Z;
  stage_optional : bool
}.

Record Pipeline : Type := {
  pl_id : string;
  pl_name : string;
  pl_description : string;
  pl_stages : list PipelineStage;
  pl_tags : list string
}.

(** [Pipeline.add_stage]: the builder appends a stage whose
    [condition_expr] and [timeout_seconds] keep their defaults. *)
Definition add_stage (p : Pipeline) (name plugin_id : string)
    (config : option dict) (condition : StageCondition)
    (optional : bool) : Pipeline :=
  {| pl_id := pl_id p; pl_name := pl_name p;
     pl_description := pl_description p;
     pl_stages := pl_stages p ++
       [ {| stage_name := name; stage_plugin_id := plugin_id;
            stage_config := default ∅ config;
            stage_condition := condition;
            stage_condition_expr := None;
            stage_timeout_seconds := 300;
            stage_optional := optional |} ];
     pl_tags := pl_tags p |}.

Definition new_pipeline (id name description : string)
    (tags : list string) : Pipeline :=
  {| pl_id := id; pl_name := name; pl_description := description;
     pl_stages := []; pl_tags := tags |}.

(** *** The built-in catalogue, [_register_builtin_pipelines] *)

Definition quicklook : Pipeline :=
  add_stage (add_stage (add_stage
    (new_pipeline "quicklook" "Quicklook"
       "Fast triage: Umbriel gate, Static summary, Noema intent"
       ["fast"; "triage"])
    "gate" "umbriel"
      (Some (<["mode" := VStr "fast"]> (<["skip_entropy" := VBool false]> ∅)))
      always false)
    "static" "static_analyzer" None on_success true)
    "intent" "noema" (Some (<["depth" := VStr "shallow"]> ∅))
      on_success false.

Definition deep_static : Pipeline :=
  add_stage (add_stage (add_stage
    (new_pipeline "deep-static" "Deep Static"
       "Full static: Static, Umbriel, Noema deep" ["thorough"; "static"])
    "static" "static_analyzer"
      (Some (<["extract_strings" := VBool true]>
               (<["compute_entropy" := VBool true]> ∅)))
      always false)
    "anti-analysis" "umbriel" (Some (<["mode" := VStr "thorough"]> ∅))
      on_success false)
    "intent" "noema"
      (Some (<["depth" := VStr "deep"]> (<["explain" := VBool true]> ∅)))
      on_success false.

Definition dynamic_first : Pipeline :=
  add_stage (add_stage (add_stage (add_stage
    (new_pipeline "dynamic-first" "Dynamic First"
       "Dynamic: Umbriel, LainTrace, Mnemosyne, Noema"
       ["dynamic"; "tracing"])
    "gate" "umbriel" (Some (<["mode" := VStr "fast"]> ∅)) always false)
    "trace" "laintrace"
      (Some (<["profile" := VStr "strict"]> (<["timeout" := VInt 60]> ∅)))
      on_success false)
    "reconstruct" "mnemosyne"
      (Some (<["build_timeline" := VBool true]>
               (<["build_graph" := VBool true]> ∅)))
      on_success false)
    "intent" "noema"
      (Some (<["depth" := VStr "deep"]> (<["use_traces" := VBool true]> ∅)))
      on_success false.

Definition release_watch : Pipeline :=
  add_stage (add_stage (add_stage (add_stage
    (new_pipeline "release-watch" "Release Watch"
       "Diff: Valkyrie, Risk Score, Optional LainTrace, Noema"
       ["diff"; "evolution"])
    "diff" "valkyrie"
      (Some (<["semantic" := VBool true]>
               (<["generate_heatmap" := VBool true]> ∅)))
      always false)
    "risk-score" "valkyrie" (Some (<["compute_risk" := VBool true]> ∅))
      on_success false)
    "trace-deltas" "laintrace"
      (Some (<["focus_changed_functions" := VBool true]> ∅))
      on_high_risk true)
    "intent" "noema" (Some (<["analyze_diff" := VBool true]> ∅))
      on_success false.

Definition full_audit : Pipeline :=
  add_stage (add_stage (add_stage (add_stage (add_stage
    (new_pipeline "full-audit" "Full Audit"
       "Complete analysis with all modules" ["complete"; "audit"])
    "gate" "umbriel" (Some (<["mode" := VStr "thorough"]> ∅)) always false)
    "static" "static_analyzer" None on_success false)
    "trace" "laintrace" (Some (<["profile" := VStr "comprehensive"]> ∅))
      on_success false)
    "reconstruct" "mnemosyne" None on_success false)
    "intent" "noema"
      (Some (<["depth" := VStr "deep"]> (<["explain" := VBool true]> ∅)))
      on_success false.

Definition builtin_pipelines : gmap string Pipeline :=
  <["quicklook" := quicklook]> (
  <["deep-static" := deep_static]> (
  <["dynamic-first" := dynamic_first]> (
  <["release-watch" := release_watch]> (
  <["full-audit" := full_audit]> ∅)))).

(** *** The executor *)

Record PipelineExecutionResult : Type := {
  per_job_id : Z;
  per_pipeline_id : string;
  per_success : bool;
  per_stages_executed : list string;
  per_stages_skipped : list string;
  per_stages_failed : list string;
  per_total_findings : list Finding;
  per_total_artifacts : list Artifact;
  per_total_events : list TraceEvent;
  per_execution_time_ms : Z;
  per_error : option string;
  per_risk_score : Qc
}.

(** What [PipelineExecutor.execute] takes from its surroundings: the
    module-level [PIPELINES] dictionary, the registry's environment, the
    outcome of [eval] on a condition expression (its truth value, or
    [None] when it raises), the [on_stage_complete] callback (returning
    the exception it raises, if any), and the wall clock: [clock n] is
    the reading, in milliseconds, of the [n]-th time the run looks at
    the clock. *)
Record ExecEnv : Type := {
  PIPELINES : gmap string Pipeline;
  registry_env : RegistryEnv;
  eval : string → dict → PluginResult → option bool;
  on_stage_complete : option (string → PluginResult → option exn);
  clock : nat → Z
}.

Definition HIGH_RISK : Qc := Q2Qc (7 # 10).

Definition _should_execute_stage (env : ExecEnv) (stage : PipelineStage)
    (last_result : option PluginResult) (context : dict) : Exc bool :=
  if decide (stage_condition stage = always) then inr true else
  match last_result with
  | None => inr (bool_decide (stage_condition stage = always))
  | Some last =>
    match stage_condition stage with
    | always => inr true
    | on_success => inr (pr_success last)
    | on_failure => inr (negb (pr_success last))
    | on_findings => inr (bool_decide (0 < length (pr_findings last)))
    | on_high_risk =>
        py_ge (default (VInt 0) (context !! "_risk_score")) HIGH_RISK
    | conditional =>
        match stage_condition_expr stage with
        | Some expr =>
            if decide (expr = "") then inr true
            else inr (default false (eval env expr context last))
        | None => inr true
        end
    end
  end.

(** The local variables of [execute], and the registry it holds. *)
Record LoopState : Type := {
  registry : PluginRegistry;
  all_findings : list Finding;
  all_artifacts : list Artifact;
  all_events : list TraceEvent;
  stages_executed : list string;
  stages_skipped : list string;
  stages_failed : list string;
  running_context : dict;
  last_result : option PluginResult;
  max_risk : Qc;
  tick : nat
}.

(** The annotation loops: every returned finding and artifact is
    stamped, in place, with the stage that produced it. *)
Definition annotate_finding (stage : PipelineStage) (f : Finding) : Finding :=
  {| f_job_id := f_job_id f; f_severity := f_severity f;
     f_category := f_category f; f_title := f_title f;
     f_description := f_description f; f_confidence := f_confidence f;
     f_tags := f_tags f;
     f_plugin_id := Some (stage_plugin_id stage);
     f_stage := Some (stage_name stage) |}.

Definition annotate_artifact (stage : PipelineStage) (a : Artifact) : Artifact :=
  {| a_job_id := a_job_id a; a_artifact_type := a_artifact_type a;
     a_name := a_name a; a_description := a_description a;
     a_uri := a_uri a; a_sha256 := a_sha256 a;
     a_size_bytes := a_size_bytes a;
     a_plugin_id := Some (stage_plugin_id stage);
     a_stage := Some (stage_name stage) |}.

Definition annotate (stage : PipelineStage) (r : PluginResult) : PluginResult :=
  {| pr_findings := annotate_finding stage <$> pr_findings r;
     pr_artifacts := annotate_artifact stage <$> pr_artifacts r;
     pr_events := pr_events r;
     pr_success := pr_success r;
     pr_error := pr_error r;
     pr_skip_remaining := pr_skip_remaining r;
     pr_risk_score := pr_risk_score r;
     pr_context_data := pr_context_data r |}.

(** Truth value of [result.risk_score]: [None] and [0.0] are false. *)
Definition risk_truthy (r : option Qc) : option Qc :=
  match r with
  | Some q => if decide (q = 0%Qc) then None else Some q
  | None => None
  end.

Definition stage_names (p : Pipeline) : list pyval :=
  (λ s, VStr (stage_name s)) <$> pl_stages p.

(** The [JobContext] built for a stage. *)
Definition stage_context (job : Job) (base_ctx : JobContext)
    (st : LoopState) : JobContext :=
  {| ctx_job := job;
     ctx_target_path := ctx_target_path base_ctx;
     ctx_workspace_dir := ctx_workspace_dir base_ctx;
     ctx_artifacts_dir := ctx_artifacts_dir base_ctx;
     ctx_previous_findings := all_findings st;
     ctx_previous_artifacts := all_artifacts st;
     ctx_pipeline_context := running_context st |}.

(** [if self.on_stage_complete: self.on_stage_complete(name, result)]:
    the exception the call raises, if any. *)
Definition stage_callback (env : ExecEnv) (name : string)
    (result : PluginResult) : option exn :=
  match on_stage_complete env with
  | Some callback => callback name result
  | None => None
  end.

(** The body of the [try] block for one stage.  It returns the locals
    as they are when the block is left, and either the plugin's result
    or the exception that left the block. *)
Definition try_stage (env : ExecEnv) (job : Job) (base_ctx : JobContext)
    (stage : PipelineStage) (st : LoopState)
    : LoopState * Exc PluginResult :=
  let '(reg1, got) :=
    get_instance (registry_env env) (registry st)
      (stage_plugin_id stage) (Some (stage_config stage)) in
  let st0 :=
    {| registry := reg1;
       all_findings := all_findings st;
       all_artifacts := all_artifacts st;
       all_events := all_events st;
       stages_executed := stages_executed st;
       stages_skipped := stages_skipped st;
       stages_failed := stages_failed st;
       running_context := running_context st;
       last_result := last_result st;
       max_risk := max_risk st;
       tick := tick st |} in
  match got with
  | inl e => (st0, inl e)
  | inr plugin =>
    let ctx := stage_context job base_ctx st in
    match validate plugin ctx with
    | Some e => (st0, inl e)
    | None =>
      match run plugin ctx with
      | inl e => (st0, inl e)
      | inr returned =>
        let result := annotate stage returned in
        let updated := pr_context_data result ∪ running_context st in
        let risk :=
          match risk_truthy (pr_risk_score result) with
          | Some r => Some (py_max (max_risk st) r)
          | None => None
          end in
        let st1 :=
          {| registry := reg1;
             all_findings := all_findings st ++ pr_findings result;
             all_artifacts := all_artifacts st ++ pr_artifacts result;
             all_events := all_events st ++ pr_events result ++
               [ mk_TraceEvent (job_id job) (clock env (tick st))
                   src_orchestrator stage_complete
                   (<["stage" := VStr (stage_name stage)]> (
                    <["plugin" := VStr (stage_plugin_id stage)]> (
                    <["findings" :=
                        VInt (Z.of_nat (length (pr_findings result)))]> (
                    <["artifacts" :=
                        VInt (Z.of_nat (length (pr_artifacts result)))]>
                    ∅)))) ];
             stages_executed := stages_executed st ++ [stage_name stage];
             stages_skipped := stages_skipped st;
             stages_failed := stages_failed st;
             running_context :=
               match risk with
               | Some m => <["_risk_score" := VFloat m]> updated
               | None => updated
               end;
             last_result := Some result;
             max_risk := default (max_risk st) risk;
             tick := S (tick st) |} in
        match stage_callback env (stage_name stage) result with
        | Some e => (st1, inl e)
        | None => (st1, inr result)
        end
      end
    end
  end.

(** How the body of the [for] loop is left. *)
Inductive Flow : Type :=
| Continue (st : LoopState)
| Break (st : LoopState)
| Return (st : LoopState) (r : PipelineExecutionResult)
| Raise (st : LoopState) (e : exn).

(** The [except] clause: the failure is recorded, and a stage that is
    not optional ends the run with an error result. *)
Definition handle_failure (env : ExecEnv) (job : Job) (pipeline_id : string)
    (start_time : Z) (stage : PipelineStage) (st : LoopState) (e : exn)
    : Flow :=
  let st1 :=
    {| registry := registry st;
       all_findings := all_findings st;
       all_artifacts := all_artifacts st;
       all_events := all_events st ++
         [ mk_TraceEvent (job_id job) (clock env (tick st))
             src_orchestrator stage_error
             (<["stage" := VStr (stage_name stage)]> (
              <["error" := VStr (exn_str e)]> ∅)) ];
       stages_executed := stages_executed st;
       stages_skipped := stages_skipped st;
       stages_failed := stages_failed st ++ [stage_name stage];
       running_context := running_context st;
       last_result := last_result st;
       max_risk := max_risk st;
       tick := S (tick st) |} in
  if negb (stage_optional stage) then
    Return
      {| registry := registry st1;
         all_findings := all_findings st1;
         all_artifacts := all_artifacts st1;
         all_events := all_events st1;
         stages_executed := stages_executed st1;
         stages_skipped := stages_skipped st1;
         stages_failed := stages_failed st1;
         running_context := running_context st1;
         last_result := last_result st1;
         max_risk := max_risk st1;
         tick := S (tick st1) |}
      {| per_job_id := job_id job;
         per_pipeline_id := pipeline_id;
         per_success := false;
         per_stages_executed := stages_executed st1;
         per_stages_skipped := stages_skipped st1;
         per_stages_failed := stages_failed st1;
         per_total_findings := all_findings st1;
         per_total_artifacts := all_artifacts st1;
         per_total_events := all_events st1;
         per_execution_time_ms := clock env (tick st1) - start_time;
         per_error :=
           Some ("Stage " +:+ stage_name stage +:+ " failed: " +:+ exn_str e);
         per_risk_score := max_risk st1 |}
  else Continue st1.

(** The stage is skipped: [stages_skipped.append(stage.name)]. *)
Definition skip_stage (stage : PipelineStage) (st : LoopState) : LoopState :=
  {| registry := registry st;
     all_findings := all_findings st;
     all_artifacts := all_artifacts st;
     all_events := all_events st;
     stages_executed := stages_executed st;
     stages_skipped := stages_skipped st ++ [stage_name stage];
     stages_failed := stages_failed st;
     running_context := running_context st;
     last_result := last_result st;
     max_risk := max_risk st;
     tick := tick st |}.

(** The stage is executed: the [try] statement with its [except]. *)
Definition execute_stage (env : ExecEnv) (job : Job) (pipeline_id : string)
    (base_ctx : JobContext) (start_time : Z) (stage : PipelineStage)
    (st : LoopState) : Flow :=
  match try_stage env job base_ctx stage st with
  | (st1, inr result) =>
      if pr_skip_remaining result then Break st1 else Continue st1
  | (st1, inl e) =>
      handle_failure env job pipeline_id start_time stage st1 e
  end.

(** One iteration of [for stage in pipeline.stages].  The condition is
    evaluated outside the [try]: an exception there leaves [execute]. *)
Definition stage_step (env : ExecEnv) (job : Job) (pipeline_id : string)
    (base_ctx : JobContext) (start_time : Z) (stage : PipelineStage)
    (st : LoopState) : Flow :=
  match _should_execute_stage env stage (last_result st)
          (running_context st) with
  | inl e => Raise st e
  | inr false => Continue (skip_stage stage st)
  | inr true =>
      execute_stage env job pipeline_id base_ctx start_time stage st
  end.

(** How the loop as a whole ends: it runs out of stages or breaks
    ([Finished]), returns from inside ([Returned]), or an exception
    leaves [execute] ([Raised]). *)
Inductive LoopEnd : Type :=
| Finished (st : LoopState)
| Returned (st : LoopState) (r : PipelineExecutionResult)
| Raised (st : LoopState) (e : exn).

Fixpoint run_stages (env : ExecEnv) (job : Job) (pipeline_id : string)
    (base_ctx : JobContext) (start_time : Z) (stages : list PipelineStage)
    (st : LoopState) : LoopEnd :=
  match stages with
  | [] => Finished st
  | stage :: rest =>
    match stage_step env job pipeline_id base_ctx start_time stage st with
    | Continue st1 =>
        run_stages env job pipeline_id base_ctx start_time rest st1
    | Break st1 => Finished st1
    | Return st1 r => Returned st1 r
    | Raise st1 e => Raised st1 e
    end
  end.

(** The locals before the loop: the clock has been read for
    [start_time] and for the pipeline start event. *)
Definition initial_state (env : ExecEnv) (reg : PluginRegistry) (job : Job)
    (pipeline_id : string) (pipeline : Pipeline) : LoopState :=
  {| registry := reg;
     all_findings := [];
     all_artifacts := [];
     all_events :=
       [ mk_TraceEvent (job_id job) (clock env 1) src_orchestrator
           stage_start
           (<["pipeline" := VStr pipeline_id]> (
            <["stages" := VList (stage_names pipeline)]> ∅)) ];
     stages_executed := [];
     stages_skipped := [];
     stages_failed := [];
     running_context := ∅;
     last_result := None;
     max_risk := 0%Qc;
     tick := 2 |}.

(** The result built after the loop. *)
Definition final_result (env : ExecEnv) (job : Job) (pipeline_id : string)
    (start_time : Z) (st : LoopState) : PipelineExecutionResult :=
  {| per_job_id := job_id job;
     per_pipeline_id := pipeline_id;
     per_success := bool_decide (length (stages_failed st) = 0);
     per_stages_executed := stages_executed st;
     per_stages_skipped := stages_skipped st;
     per_stages_failed := stages_failed st;
     per_total_findings := all_findings st;
     per_total_artifacts := all_artifacts st;
     per_total_events := all_events st;
     per_execution_time_ms := clock env (tick st) - start_time;
     per_error := None;
     per_risk_score := max_risk st |}.

(** [PipelineExecutor.execute], with the loop state it ends in. *)
Definition execute_loop (env : ExecEnv) (reg : PluginRegistry) (job : Job)
    (pipeline_id : string) (base_ctx : JobContext) : option LoopEnd :=
  match PIPELINES env !! pipeline_id with
  | None => None
  | Some pipeline =>
      Some (run_stages env job pipeline_id base_ctx (clock env 0)
              (pl_stages pipeline)
              (initial_state env reg job pipeline_id pipeline))
  end.

(** [PipelineExecutor.execute(job, pipeline_id, base_ctx)]: the registry
    as the call leaves it, and the result or the exception raised. *)
Definition execute (env : ExecEnv) (reg : PluginRegistry) (job : Job)
    (pipeline_id : string) (base_ctx : JobContext)
    : PluginRegistry * Exc PipelineExecutionResult :=
  match execute_loop env reg job pipeline_id base_ctx with
  | None => (reg, inl (Exn ValueError ("Unknown pipeline: " +:+ pipeline_id)))
  | Some (Finished st) =>
      (registry st, inr (final_result env job pipeline_id (clock env 0) st))
  | Some (Returned st r) => (registry st, inr r)
  | Some (Raised st e) => (registry st, inl e)
  end.

End Pipeline.
Export Pipeline.

(** ** Orchestrator (aetherframe/core/orchestrator.py) *)

Module Orchestrator.

Section WithStore.

(** The state behind the persistence callbacks handed to the
    orchestrator's constructor. *)
Context {S : Type}.

(** The four optional callbacks.  A persistence callback returns the
    exception it raises, if any; [_update_job] is taken not to
    raise. *)
Record Callbacks : Type := {
  _persist_finding : option (Finding → S → S * option exn);
  _persist_artifact : option (Artifact → S → S * option exn);
  _persist_event : option (TraceEvent → S → S * option exn);
  _update_job : option (Job → S → S)
}.

(** The orchestrator object: its job table, and the lines it has
    written with [logger.error]. *)
Record Orchestrator : Type := {
  _active_jobs : gmap Z Job;
  error_log : list string
}.

Definition set_status (job : Job) (s : JobStatus) : Job :=
  {| job_id := job_id job; job_target := job_target job;
     job_status := s; job_pipeline_id := job_pipeline_id job;
     job_progress := job_progress job; job_error := job_error job |}.

(** [Orchestrator.cancel(job_id)].  The job object in [_active_jobs]
    is the one whose status is assigned. *)
Definition cancel (cb : Callbacks) (o : Orchestrator) (store : S)
    (id : Z) : Orchestrator * S * bool :=
  match _active_jobs o !! id with
  | Some job =>
    if decide (job_status job = running) then
      let job' := set_status job cancelled in
      ({| _active_jobs := <[id := job']> (_active_jobs o);
          error_log := error_log o |},
       match _update_job cb with
       | Some update => update job' store
       | None => store
       end,
       true)
    else (o, store, false)
  | None => (o, store, false)
  end.

(** One of the three loops of [_persist_results]: each row is tried
    inside its own [try], a failure is logged and the loop goes on. *)
Fixpoint persist_rows {A : Type} (what : string)
    (persist : A → S → S * option exn) (rows : list A)
    (store : S) (log : list string) : S * list string :=
  match rows with
  | [] => (store, log)
  | row :: rest =>
    match persist row store with
    | (store1, None) => persist_rows what persist rest store1 log
    | (store1, Some e) =>
        persist_rows what persist rest store1
          (log ++ ["Failed to persist " +:+ what +:+ ": " +:+ exn_str e])
    end
  end.

Definition persist_with {A : Type} (what : string)
    (cb : option (A → S → S * option exn)) (rows : list A)
    (sl : S * list string) : S * list string :=
  match cb with
  | Some persist => persist_rows what persist rows sl.1 sl.2
  | None => sl
  end.

(** [Orchestrator._persist_results(result)] *)
Definition _persist_results (cb : Callbacks) (o : Orchestrator)
    (store : S) (result : PipelineExecutionResult) : Orchestrator * S :=
  let sl1 := persist_with "finding" (_persist_finding cb)
               (per_total_findings result) (store, error_log o) in
  let sl2 := persist_with "artifact" (_persist_artifact cb)
               (per_total_artifacts result) sl1 in
  let sl3 := persist_with "event" (_persist_event cb)
               (per_total_events result) sl2 in
  ({| _active_jobs := _active_jobs o; error_log := sl3.2 |}, sl3.1).

End WithStore.

Arguments Callbacks : clear implicits.

End Orchestrator.

(** ** The store (aetherframe/core/models.py, core/repository.py) *)

Module Models.

(** models.py, [JobStatus]: the four values the [jobs.status] column
    can hold. *)
Inductive JobStatus : Type := pending | running | completed | failed.

#[global] Instance JobStatus_eq_dec : EqDecision JobStatus.
Proof. solve_decision. Defined.

(** A row of [jobs]. *)
Record Job : Type := {
  id : Z;
  target : string;
  status : JobStatus;
  result : option dict;
  pipeline_id : option string;
  progress : Z
}.

(** A row of [events]. *)
Record Event : Type := {
  event_type : string;
  payload : dict;
  event_job_id : option Z
}.

(** The session's view of the database: [jobs] by primary key, the
    other tables as the rows inserted so far, oldest first. *)
Record DB : Type := {
  jobs : gmap Z Job;
  findings : list Finding;
  artifacts : list Artifact;
  trace_events : list TraceEvent;
  events : list Event
}.

(** A write of one result row. *)
Inductive RowWrite : Type :=
| WFinding (f : Finding)
| WArtifact (a : Artifact)
| WTraceEvent (e : TraceEvent).

End Models.

Module Repository.
Import Models.

(** A SQLAlchemy [Session] on the store: the rows committed so far, and
    whether a flush has failed in this session with no [rollback()]
    issued since.  In that state the session's transaction is inactive,
    and every query and every commit raises PendingRollbackError. *)
Record Session : Type := {
  store : DB;
  inactive : bool
}.

(** [SessionLocal()] *)
Definition open_session (db : DB) : Session :=
  {| store := db; inactive := false |}.

(** The PendingRollbackError of an inactive session (the first sentence
    of its message). *)
Definition pending_rollback : exn :=
  Exn PendingRollbackError
    "This Session's transaction has been rolled back due to a previous exception during flush.".

(** The database with its [jobs] table replaced. *)
Definition set_jobs (db : DB) (table : gmap Z Job) : DB :=
  {| jobs := table; findings := findings db; artifacts := artifacts db;
     trace_events := trace_events db; events := events db |}.

(** The database with one job row stored under a key. *)
Definition put_job (db : DB) (key : Z) (row : Job) : DB :=
  set_jobs db (<[key := row]> (jobs db)).

(** A job row with another status and result. *)
Definition with_status (row : Job) (s : JobStatus) (r : option dict) : Job :=
  {| id := id row; target := target row; status := s; result := r;
     pipeline_id := pipeline_id row; progress := progress row |}.

(** [update_job_status(db, job_id, status, result=None)]: the query
    raises in an inactive session; [None] is returned, and nothing
    committed, when there is no such job. *)
Definition update_job_status (s : Session) (job_id : Z)
    (new_status : JobStatus) (new_result : option dict)
    : Session * Exc (option Job) :=
  if inactive s then (s, inl pending_rollback) else
  match jobs (store s) !! job_id with
  | None => (s, inr None)
  | Some job =>
    let job' :=
      with_status job new_status
        match new_result with
        | Some r => Some r
        | None => result job
        end in
    ({| store := put_job (store s) job_id job'; inactive := false |},
     inr (Some job'))
  end.

(** [create_event(db, event_type, payload, job_id)]: [db.add] then
    [db.commit], which raises in an inactive session. *)
Definition create_event (s : Session) (ty : string) (p : dict)
    (job_id : option Z) : Session * option exn :=
  if inactive s then (s, Some pending_rollback) else
  ({| store :=
        {| jobs := jobs (store s); findings := findings (store s);
           artifacts := artifacts (store s);
           trace_events := trace_events (store s);
           events := events (store s) ++
             [ {| event_type := ty; payload := p;
                  event_job_id := job_id |} ] |};
      inactive := false |}, None).

Section WithFaults.

(** The exception, if any, with which the store rejects a row when the
    insert is flushed.  The rejected row is not stored, the exception
    leaves [db.commit()], and the session is inactive from then on. *)
Variable fault : RowWrite → option exn.

(** [db.add(row); db.commit()] for a result row: [insert] is the store
    with the row in its table. *)
Definition commit_row (s : Session) (w : RowWrite) (insert : DB)
    : Session * option exn :=
  if inactive s then (s, Some pending_rollback) else
  match fault w with
  | Some e => ({| store := store s; inactive := true |}, Some e)
  | None => ({| store := insert; inactive := false |}, None)
  end.

(** [create_finding(db, finding_data)] *)
Definition create_finding (s : Session) (finding_data : Finding)
    : Session * option exn :=
  commit_row s (WFinding finding_data)
    {| jobs := jobs (store s);
       findings := findings (store s) ++ [finding_data];
       artifacts := artifacts (store s);
       trace_events := trace_events (store s);
       events := events (store s) |}.

(** [create_artifact(db, artifact_data)] *)
Definition create_artifact (s : Session) (artifact_data : Artifact)
    : Session * option exn :=
  commit_row s (WArtifact artifact_data)
    {| jobs := jobs (store s); findings := findings (store s);
       artifacts := artifacts (store s) ++ [artifact_data];
       trace_events := trace_events (store s);
       events := events (store s) |}.

(** [create_trace_event(db, event_data)] *)
Definition create_trace_event (s : Session) (event_data : TraceEvent)
    : Session * option exn :=
  commit_row s (WTraceEvent event_data)
    {| jobs := jobs (store s); findings := findings (store s);
       artifacts := artifacts (store s);
       trace_events := trace_events (store s) ++ [event_data];
       events := events (store s) |}.

End WithFaults.

End Repository.

(** ** The worker task (aetherframe/core/tasks.py) *)

Module Tasks.
Import Models Repository.

(** What [process_job] takes from its surroundings: the executor's
    environment, whether [enforce_or_fail_worker()] lets the task run,
    the rows the store rejects, the temporary directory, and the
    reading of [time.time()] taken in the [except] clause. *)
Record WorkerEnv : Type := {
  exec_env : ExecEnv;
  license_ok : bool;
  fault : RowWrite → option exn;
  tempdir : string;
  time_time : Qc
}.

(** The schema's [JobStatus] member with the same value as a stored
    status; the schema has no member with the value "completed". *)
Definition status_by_value (s : Models.JobStatus) : option Schemas.JobStatus :=
  match s with
  | pending => Some Schemas.pending
  | running => Some Schemas.running
  | failed => Some Schemas.failed
  | completed => None
  end.

(** [JobSchema.model_validate(db_job)]: the schema reads the row's
    attributes; [pipeline_id] must be a string, [progress] must lie in
    0..100, and the status must name a member of the schema's enum. *)
Definition model_validate (db_job : Models.Job) : Exc Schemas.Job :=
  match status_by_value (status db_job), pipeline_id db_job with
  | Some s, Some p =>
    if bool_decide (0 ≤ progress db_job ≤ 100)%Z then
      inr {| job_id := id db_job; job_target := target db_job;
             job_status := s; job_pipeline_id := p;
             job_progress := progress db_job; job_error := None |}
    else inl (Exn ValidationError "progress")
  | None, _ => inl (Exn ValidationError "status")
  | _, None => inl (Exn ValidationError "pipeline_id")
  end.

(** [db_job.pipeline_id or "quicklook"] *)
Definition pipeline_or_default (p : option string) : string :=
  match p with
  | Some s => if decide (s = "") then "quicklook" else s
  | None => "quicklook"
  end.

(** One of the three persistence loops of [process_job]: the rows are
    written in order, and the first exception leaves the loop. *)
Fixpoint persist_all {A : Type} (create : Session → A → Session * option exn)
    (rows : list A) (s : Session) : Session * option exn :=
  match rows with
  | [] => (s, None)
  | row :: rest =>
    match create s row with
    | (s1, Some e) => (s1, Some e)
    | (s1, None) => persist_all create rest s1
    end
  end.

(** The [final_result] dictionary. *)
Definition summary (pipeline_id : string) (r : PipelineExecutionResult)
    : dict :=
  let base : dict :=
    <["pipeline_id" := VStr pipeline_id]> (
    <["stages_executed" := VList (VStr <$> per_stages_executed r)]> (
    <["stages_failed" := VList (VStr <$> per_stages_failed r)]> (
    <["risk_score" := VFloat (per_risk_score r)]> (
    <["execution_time_ms" := VInt (per_execution_time_ms r)]> (
    <["findings_count" :=
        VInt (Z.of_nat (length (per_total_findings r)))]> (
    <["artifacts_count" :=
        VInt (Z.of_nat (length (per_total_artifacts r)))]> ∅)))))) in
  match per_error r with
  | Some e => if decide (e = "") then base else <["error" := VStr e]> base
  | None => base
  end.

(** The worker process: the store and the plugin registry.  The
    session of a task is opened by the task and closed when it ends. *)
Definition Worker : Type := DB * PluginRegistry.

(** The [JobContext] the task builds for the executor. *)
Definition task_context (env : WorkerEnv) (job_id : Z) (target : string)
    (job_schema : Schemas.Job) : JobContext :=
  let workspace := tempdir env +:+ "/aetherframe/" +:+ pretty job_id in
  {| ctx_job := job_schema; ctx_target_path := target;
     ctx_workspace_dir := workspace;
     ctx_artifacts_dir := workspace +:+ "/artifacts";
     ctx_previous_findings := []; ctx_previous_artifacts := [];
     ctx_pipeline_context := ∅ |}.

(** The [try] block of [process_job], on the session the task has
    opened.  The workspace and artifacts directories are taken to be
    creatable. *)
Definition try_process_job (env : WorkerEnv) (s : Session)
    (reg : PluginRegistry) (job_id : Z) (target : string)
    : Session * PluginRegistry * Exc dict :=
  match jobs (store s) !! job_id with
  | None =>
      (s, reg, inl (Exn ValueError ("Job " +:+ pretty job_id +:+ " not found")))
  | Some db_job =>
    let pid := pipeline_or_default (Models.pipeline_id db_job) in
    match update_job_status s job_id running None with
    | (s1, inl e) => (s1, reg, inl e)
    | (s1, inr refreshed) =>
      match model_validate (default db_job refreshed) with
      | inl e => (s1, reg, inl e)
      | inr job_schema =>
        let ctx := task_context env job_id target job_schema in
        match execute (exec_env env) reg job_schema pid ctx with
        | (reg1, inl e) => (s1, reg1, inl e)
        | (reg1, inr result) =>
          let final_status :=
            if per_success result then completed else failed in
          match persist_all (create_finding (fault env))
                  (per_total_findings result) s1 with
          | (s2, Some e) => (s2, reg1, inl e)
          | (s2, None) =>
            match persist_all (create_artifact (fault env))
                    (per_total_artifacts result) s2 with
            | (s3, Some e) => (s3, reg1, inl e)
            | (s3, None) =>
              match persist_all (create_trace_event (fault env))
                      (per_total_events result) s3 with
              | (s4, Some e) => (s4, reg1, inl e)
              | (s4, None) =>
                let final_result := summary pid result in
                match update_job_status s4 job_id final_status
                        (Some final_result) with
                | (s5, inl e) => (s5, reg1, inl e)
                | (s5, inr _) => (s5, reg1, inr final_result)
                end
              end
            end
          end
        end
      end
    end
  end.

(** The [except] clause of [process_job]: the job is marked failed and a
    job_failed event recorded, then [exc] is raised again; an exception
    raised by one of the two writes leaves the clause in its place. *)
Definition except_clause (env : WorkerEnv) (s : Session) (job_id : Z)
    (exc : exn) : Session * exn :=
  let fail_payload : dict :=
    <["error" := VStr (exn_str exc)]> (
    <["ts" := VFloat (time_time env)]> ∅) in
  match update_job_status s job_id failed (Some fail_payload) with
  | (s1, inl e) => (s1, e)
  | (s1, inr _) =>
    match create_event s1 "job_failed" fail_payload (Some job_id) with
    | (s2, Some e) => (s2, e)
    | (s2, None) => (s2, exc)
    end
  end.

(** [process_job(job_id, target)]: the worker as the task leaves it,
    its session closed, and the dictionary returned or the exception
    raised. *)
Definition process_job (env : WorkerEnv) (w : Worker) (job_id : Z)
    (target : string) : Worker * Exc dict :=
  if negb (license_ok env) then (w, inl (Exn RuntimeError "license"))
  else
    match try_process_job env (open_session w.1) w.2 job_id target with
    | (s1, reg1, inr final_result) => ((store s1, reg1), inr final_result)
    | (s1, reg1, inl exc) =>
      let '(s2, raised) := except_clause env s1 job_id exc in
      ((store s2, reg1), inl raised)
    end.

End Tasks.

(** ** Concrete plugins, registries and environments used in examples *)

Module Fixtures.

Definition manifest (id : string) : PluginManifest :=
  {| m_id := id; m_name := id; m_version := "1.0.0"; m_kind := "analyzer";
     m_capabilities := ["analysis.run"]; m_dependencies := [] |}.

(** A result with nothing in it but the success flag. *)
Definition plain_result (ok : bool) : PluginResult :=
  {| pr_findings := []; pr_artifacts := []; pr_events := [];
     pr_success := ok; pr_error := if ok then None else Some "analysis failed";
     pr_skip_remaining := false; pr_risk_score := None;
     pr_context_data := ∅ |}.

(** A plugin whose [validate] accepts and whose [run] always has the
    same outcome. *)
Definition constant_plugin (name : string) (outcome : Exc PluginResult)
    : PluginClass :=
  {| cls_name := name;
     cls_validate := λ _ _, None;
     cls_run := λ _ _, outcome |}.

Definition registry_of (l : list (string * PluginClass)) : PluginRegistry :=
  foldr (λ pc reg, register_plugin reg pc.2 (manifest pc.1))
    empty_registry l.

(** A hash of a config: any function will do, this one counts the
    items. *)
Definition registry_env0 : RegistryEnv :=
  {| hash_items := λ d, inr (Z.of_nat (size d));
     import_plugin := λ id, inl (Exn ImportError ("No plugin.py found for " +:+ id)) |}.

(** A plugins directory in which every [plugin.py] can be imported, and
    a registry that has discovered the manifest of "umbriel" and loaded
    nothing yet. *)
Definition importing_env : RegistryEnv :=
  {| hash_items := λ d, inr (Z.of_nat (size d));
     import_plugin := λ id, inr (constant_plugin id (inr (plain_result true))) |}.

Definition discovered_registry : PluginRegistry :=
  {| _plugins := ∅; _manifests := <["umbriel" := manifest "umbriel"]> ∅;
     _instances := ∅; next_obj := 0 |}.

(** Two plugins that depend on each other; the second also names a
    dependency that has no manifest. *)
Definition manifest_with (id : string) (deps : list string) : PluginManifest :=
  {| m_id := id; m_name := id; m_version := "1.0.0"; m_kind := "analyzer";
     m_capabilities := ["analysis.run"]; m_dependencies := deps |}.

Definition circular_registry : PluginRegistry :=
  {| _plugins := ∅;
     _manifests :=
       <["alpha" := manifest_with "alpha" ["beta"]]> (
       <["beta" := manifest_with "beta" ["alpha"; "missing"]]> ∅);
     _instances := ∅; next_obj := 0 |}.

(** The built-in catalogue, no condition expressions, no callback, and
    a clock that advances by one millisecond per reading. *)
Definition env0 : ExecEnv :=
  {| PIPELINES := builtin_pipelines;
     registry_env := registry_env0;
     eval := λ _ _ _, None;
     on_stage_complete := None;
     clock := λ n, Z.of_nat n |}.

Definition job0 : Job :=
  {| job_id := 1; job_target := "/samples/a.bin"; job_status := Schemas.running;
     job_pipeline_id := "quicklook"; job_progress := 0; job_error := None |}.

Definition ctx0 : JobContext :=
  {| ctx_job := job0; ctx_target_path := "/samples/a.bin";
     ctx_workspace_dir := "/tmp/aetherframe/1";
     ctx_artifacts_dir := "/tmp/aetherframe/1/artifacts";
     ctx_previous_findings := []; ctx_previous_artifacts := [];
     ctx_pipeline_context := ∅ |}.

(** A registry in which every plugin of the catalogue succeeds. *)
Definition reg_all_ok : PluginRegistry :=
  registry_of
    [ ("umbriel", constant_plugin "Umbriel" (inr (plain_result true)));
      ("static_analyzer", constant_plugin "Static" (inr (plain_result true)));
      ("noema", constant_plugin "Noema" (inr (plain_result true)));
      ("valkyrie", constant_plugin "Valkyrie" (inr (plain_result true)));
      ("laintrace", constant_plugin "LainTrace" (inr (plain_result true)));
      ("mnemosyne", constant_plugin "Mnemosyne" (inr (plain_result true))) ].

(** A pipeline of one stage, added with the builder's default condition
    ([on_success]). *)
Definition single : Pipeline :=
  add_stage (new_pipeline "single" "Single" "One stage" [])
    "only" "umbriel" None on_success false.

Definition env_single : ExecEnv :=
  {| PIPELINES := <["single" := single]> builtin_pipelines;
     registry_env := registry_env0;
     eval := λ _ _ _, None;
     on_stage_complete := None;
     clock := λ n, Z.of_nat n |}.

Definition only_stage : PipelineStage :=
  {| stage_name := "only"; stage_plugin_id := "umbriel";
     stage_config := ∅; stage_condition := on_success;
     stage_condition_expr := None; stage_timeout_seconds := 300;
     stage_optional := false |}.

(** A [conditional] stage that carries no expression. *)
Definition bare_conditional : PipelineStage :=
  {| stage_name := "maybe"; stage_plugin_id := "noema";
     stage_config := ∅; stage_condition := conditional;
     stage_condition_expr := None; stage_timeout_seconds := 300;
     stage_optional := false |}.

(** Two pipelines with the bare conditional stage: after a gate, and
    alone. *)
Definition gated : Pipeline :=
  {| pl_id := "gated"; pl_name := "Gated"; pl_description := "";
     pl_stages :=
       [ {| stage_name := "gate"; stage_plugin_id := "umbriel";
            stage_config := ∅; stage_condition := always;
            stage_condition_expr := None; stage_timeout_seconds := 300;
            stage_optional := false |};
         bare_conditional ];
     pl_tags := [] |}.

Definition ungated : Pipeline :=
  {| pl_id := "ungated"; pl_name := "Ungated"; pl_description := "";
     pl_stages := [bare_conditional]; pl_tags := [] |}.

Definition env_conditional : ExecEnv :=
  {| PIPELINES := <["gated" := gated]> (<["ungated" := ungated]> ∅);
     registry_env := registry_env0;
     eval := λ _ _ _, None;
     on_stage_complete := None;
     clock := λ n, Z.of_nat n |}.

(** The gate raises. *)
Definition reg_gate_raises : PluginRegistry :=
  registry_of
    [ ("umbriel", constant_plugin "Umbriel" (inl (Exn RuntimeError "boom")));
      ("static_analyzer", constant_plugin "Static" (inr (plain_result true)));
      ("noema", constant_plugin "Noema" (inr (plain_result true))) ].

(** The gate's analysis fails in the ordinary way: [run] returns a
    result with [success=false]. *)
Definition reg_gate_unsuccessful : PluginRegistry :=
  registry_of
    [ ("umbriel", constant_plugin "Umbriel" (inr (plain_result false)));
      ("static_analyzer", constant_plugin "Static" (inr (plain_result true)));
      ("noema", constant_plugin "Noema" (inr (plain_result true))) ].

(** The static analyzer raises. *)
Definition reg_static_raises : PluginRegistry :=
  registry_of
    [ ("umbriel", constant_plugin "Umbriel" (inr (plain_result true)));
      ("static_analyzer",
         constant_plugin "Static" (inl (Exn RuntimeError "boom")));
      ("noema", constant_plugin "Noema" (inr (plain_result true))) ].




(** A differ for release-watch.  Its first stage ("diff") reports a
    risk score of 0.9; its second stage (config [compute_risk]) reports
    no risk score and puts its own estimate, 0.1, in [context_data]
    under the key "_risk_score". *)
Definition diff_result : PluginResult :=
  {| pr_findings := []; pr_artifacts := []; pr_events := [];
     pr_success := true; pr_error := None;
     pr_skip_remaining := false; pr_risk_score := Some (Q2Qc (9 # 10));
     pr_context_data := ∅ |}.

Definition rescoring_result : PluginResult :=
  {| pr_findings := []; pr_artifacts := []; pr_events := [];
     pr_success := true; pr_error := None;
     pr_skip_remaining := false; pr_risk_score := None;
     pr_context_data := <["_risk_score" := VFloat (Q2Qc (1 # 10))]> ∅ |}.

Definition rescoring_differ : PluginClass :=
  {| cls_name := "Valkyrie";
     cls_validate := λ _ _, None;
     cls_run := λ config _,
       match config !! "compute_risk" with
       | Some (VBool true) => inr rescoring_result
       | _ => inr diff_result
       end |}.

Definition reg_rescoring : PluginRegistry :=
  registry_of
    [ ("valkyrie", rescoring_differ);
      ("laintrace", constant_plugin "LainTrace" (inr (plain_result true)));
      ("noema", constant_plugin "Noema" (inr (plain_result true))) ].

(** An orchestrator that holds one job, still pending, and callbacks
    that only log the jobs handed to [_update_job]. *)
Definition pending_job : Job :=
  {| job_id := 7; job_target := "/samples/b.bin";
     job_status := Schemas.pending; job_pipeline_id := "quicklook";
     job_progress := 0; job_error := None |}.

Definition orch_pending : Orchestrator.Orchestrator :=
  {| Orchestrator._active_jobs := <[7%Z := pending_job]> ∅;
     Orchestrator.error_log := [] |}.

Definition orch_running : Orchestrator.Orchestrator :=
  {| Orchestrator._active_jobs :=
       <[7%Z := Orchestrator.set_status pending_job Schemas.running]> ∅;
     Orchestrator.error_log := [] |}.

Definition logging_callbacks : Orchestrator.Callbacks (list Job) :=
  {| Orchestrator._persist_finding := None;
     Orchestrator._persist_artifact := None;
     Orchestrator._persist_event := None;
     Orchestrator._update_job := Some (λ job log, log ++ [job]) |}.

(** A gate that returns two findings and one artifact. *)
Definition finding_titled (title : string) : Finding :=
  {| f_job_id := 1; f_severity := Schemas.high; f_category := "anti_debug";
     f_title := title; f_description := None;
     f_confidence := Q2Qc (9 # 10); f_tags := [];
     f_plugin_id := None; f_stage := None |}.

Definition report_artifact : Artifact :=
  {| a_job_id := 1; a_artifact_type := "json";
     a_name := "anti_analysis_report.json"; a_description := None;
     a_uri := Some "file:///tmp/aetherframe/1/artifacts/anti_analysis_report.json";
     a_sha256 := None; a_size_bytes := None;
     a_plugin_id := None; a_stage := None |}.

Definition gate_result : PluginResult :=
  {| pr_findings := [finding_titled "first"; finding_titled "second"];
     pr_artifacts := [report_artifact]; pr_events := [];
     pr_success := true; pr_error := None;
     pr_skip_remaining := false; pr_risk_score := None;
     pr_context_data := ∅ |}.

Definition reg_findings : PluginRegistry :=
  registry_of
    [ ("umbriel", constant_plugin "Umbriel" (inr gate_result));
      ("static_analyzer", constant_plugin "Static" (inr (plain_result true)));
      ("noema", constant_plugin "Noema" (inr (plain_result true))) ].

(** A worker whose store accepts every write, and one whose store
    rejects the finding titled "first". *)
Definition wenv0 : Tasks.WorkerEnv :=
  {| Tasks.exec_env := env0; Tasks.license_ok := true;
     Tasks.fault := λ _, None; Tasks.tempdir := "/tmp";
     Tasks.time_time := 0%Qc |}.

Definition reject_first (w : Models.RowWrite) : option exn :=
  match w with
  | Models.WFinding f =>
      if decide (f_title f = "first")
      then Some (Exn StoreError "write failed") else None
  | _ => None
  end.

Definition wenv_faulty : Tasks.WorkerEnv :=
  {| Tasks.exec_env := env0; Tasks.license_ok := true;
     Tasks.fault := reject_first; Tasks.tempdir := "/tmp";
     Tasks.time_time := 0%Qc |}.

Definition job_row (s : Models.JobStatus) (r : option dict) : Models.Job :=
  {| Models.id := 1; Models.target := "/samples/a.bin"; Models.status := s;
     Models.result := r; Models.pipeline_id := Some "quicklook";
     Models.progress := 0 |}.

Definition db_with (row : Models.Job) : Models.DB :=
  {| Models.jobs := <[1%Z := row]> ∅; Models.findings := [];
     Models.artifacts := []; Models.trace_events := [];
     Models.events := [] |}.

(** The store after a first delivery that found nothing: job 1 is
    completed. *)
Definition db_completed : Models.DB :=
  db_with (job_row Models.completed
             (Some (<["pipeline_id" := VStr "quicklook"]> (
                    <["findings_count" := VInt 0]> ∅)))).

Definition db_pending : Models.DB := db_with (job_row Models.pending None).

(** Persistence callbacks that record the row they are handed (the
    title of a finding, the name of an artifact) and then raise, every
    time; and a result with two findings and one artifact. *)
Definition recording_callbacks : Orchestrator.Callbacks (list string) :=
  {| Orchestrator._persist_finding := Some (λ f seen,
       (seen ++ [f_title f], Some (Exn StoreError "write failed")));
     Orchestrator._persist_artifact := Some (λ a seen,
       (seen ++ [a_name a], Some (Exn StoreError "write failed")));
     Orchestrator._persist_event := Some (λ _ seen,
       (seen ++ ["event"], Some (Exn StoreError "write failed")));
     Orchestrator._update_job := None |}.

Definition sample_result : PipelineExecutionResult :=
  {| per_job_id := 1; per_pipeline_id := "quicklook"; per_success := true;
     per_stages_executed := ["gate"]; per_stages_skipped := [];
     per_stages_failed := [];
     per_total_findings := [finding_titled "first"; finding_titled "second"];
     per_total_artifacts := [report_artifact]; per_total_events := [];
     per_execution_time_ms := 3; per_error := None;
     per_risk_score := 0%Qc |}.

Definition orch_empty : Orchestrator.Orchestrator :=
  {| Orchestrator._active_jobs := ∅; Orchestrator.error_log := [] |}.

(** A completion callback that raises for the stage "gate". *)
Definition env_callback_raises : ExecEnv :=
  {| PIPELINES := builtin_pipelines;
     registry_env := registry_env0;
     eval := λ _ _ _, None;
     on_stage_complete := Some (λ name _,
       if decide (name = "gate")
       then Some (Exn RuntimeError "callback failed") else None);
     clock := λ n, Z.of_nat n |}.

Definition gate_stage : PipelineStage :=
  {| stage_name := "gate"; stage_plugin_id := "umbriel";
     stage_config := <["mode" := VStr "fast"]>
                       (<["skip_entropy" := VBool false]> ∅);
     stage_condition := always; stage_condition_expr := None;
     stage_timeout_seconds := 300; stage_optional := false |}.

Definition gate_instance (cls : PluginClass) : Plugin :=
  {| obj_id := 0; p_class := cls; p_manifest := manifest "umbriel";
     p_config := stage_config gate_stage |}.

(** A differ that labels the risk instead of scoring it: its result puts
    the string "high" under "_risk_score". *)
Definition labelling_result : PluginResult :=
  {| pr_findings := []; pr_artifacts := []; pr_events := [];
     pr_success := true; pr_error := None;
     pr_skip_remaining := false; pr_risk_score := None;
     pr_context_data := <["_risk_score" := VStr "high"]> ∅ |}.

Definition reg_labelling : PluginRegistry :=
  registry_of
    [ ("valkyrie", constant_plugin "Valkyrie" (inr labelling_result));
      ("laintrace", constant_plugin "LainTrace" (inr (plain_result true)));
      ("noema", constant_plugin "Noema" (inr (plain_result true))) ].

Definition trace_deltas_stage : PipelineStage :=
  {| stage_name := "trace-deltas"; stage_plugin_id := "laintrace";
     stage_config := <["focus_changed_functions" := VBool true]> ∅;
     stage_condition := on_high_risk; stage_condition_expr := None;
     stage_timeout_seconds := 300; stage_optional := true |}.

(** The locals of a run in which the labelling differ was the last stage
    to return. *)
Definition st_labelled : LoopState :=
  {| registry := reg_labelling; all_findings := []; all_artifacts := [];
     all_events := []; stages_executed := ["diff"; "risk-score"];
     stages_skipped := []; stages_failed := [];
     running_context := <["_risk_score" := VStr "high"]> ∅;
     last_result := Some labelling_result; max_risk := 0%Qc; tick := 4 |}.

End Fixtures.

(** ** Predicates used in the statements *)

Module EventOrder.


(** [e1] comes strictly before [e2] in the order of the pairs
    (ts, sequence). *)
Definition before (e1 e2 : TraceEvent) : Prop :=
  (te_ts e1 < te_ts e2)%Z
  ∨ (te_ts e1 = te_ts e2 ∧ (te_sequence e1 < te_sequence e2)%Z).



End EventOrder.
Export EventOrder.

(** ** Runs of the stage loop, for the statements about the executor *)

Module RunFacts.

(** The locals as an iteration of the loop leaves them, and as the loop
    as a whole leaves them. *)
Definition flow_state (f : Flow) : LoopState :=
  match f with
  | Continue st | Break st | Return st _ | Raise st _ => st
  end.

Definition end_state (e : LoopEnd) : LoopState :=
  match e with
  | Finished st | Returned st _ | Raised st _ => st
  end.

(** [steps st l st1]: the loop, started with the locals [st], has gone
    through the stages [l], in order, and the locals are now [st1]. *)
Inductive steps (env : ExecEnv) (job : Job) (pipeline_id : string)
    (base_ctx : JobContext) (start_time : Z)
    : LoopState → list PipelineStage → LoopState → Prop :=
| steps_nil (st : LoopState) :
    steps env job pipeline_id base_ctx start_time st [] st
| steps_cons (st st1 st2 : LoopState) (stage : PipelineStage)
    (l : list PipelineStage) :
    flow_state (stage_step env job pipeline_id base_ctx start_time stage st)
    = st1 →
    steps env job pipeline_id base_ctx start_time st1 l st2 →
    steps env job pipeline_id base_ctx start_time st (stage :: l) st2.



(** The number of stage names recorded in the three lists. *)
Definition recorded (st : LoopState) : nat :=
  (length (stages_executed st) + length (stages_skipped st)
   + length (stages_failed st))%nat.

(** A finding or an artifact carries the stamp of a stage of the
    pipeline that is recorded as executed. *)
Definition stamped_by (stages : list PipelineStage) (executed : list string)
    (plugin_id stage : option string) : Prop :=
  ∃ s, s ∈ stages ∧ plugin_id = Some (stage_plugin_id s)
       ∧ stage = Some (stage_name s) ∧ stage_name s ∈ executed.

(** A dict value that is not a number. *)
Definition non_numeric (v : pyval) : Prop :=
  match v with
  | VNone | VStr _ | VList _ => True
  | VBool _ | VInt _ | VFloat _ => False
  end.

(** The [stage_error] event the [except] clause records. *)
Definition stage_error_event (env : ExecEnv) (job : Job)
    (stage : PipelineStage) (at_tick : nat) (e : exn) : TraceEvent :=
  mk_TraceEvent (job_id job) (clock env at_tick) src_orchestrator stage_error
    (<["stage" := VStr (stage_name stage)]> (
     <["error" := VStr (exn_str e)]> ∅)).

(** Every result that a plugin class returns from [run] satisfies [Q]. *)
Definition class_results (Q : PluginResult → Prop) (cls : PluginClass) : Prop :=
  ∀ config ctx r, cls_run cls config ctx = inr r → Q r.

(** Every plugin the registry holds or can import returns only results
    that satisfy [Q]. *)
Definition registry_results (Q : PluginResult → Prop) (env : RegistryEnv)
    (reg : PluginRegistry) : Prop :=
  map_Forall (λ _ cls, class_results Q cls) (_plugins reg)
  ∧ map_Forall (λ _ inst, class_results Q (p_class inst)) (_instances reg)
  ∧ ∀ id cls, import_plugin env id = inr cls → class_results Q cls.

(** A risk score as the schema admits them: between 0 and 1. *)
Definition valid_risk (r : PluginResult) : Prop :=
  ∀ q, pr_risk_score r = Some q → (0 ≤ q)%Qc ∧ (q ≤ 1)%Qc.

End RunFacts.
Export RunFacts.

(** ** Dependency resolution, for the statements about the registry *)

Module DependencyFacts.

(** What a call of [visit], or a loop of such calls, does to the two
    closure variables: [visited] grows, and [resolved] gets new names
    appended, which are all different, were not visited before, are
    visited now, and have a manifest all of whose dependencies are
    visited now; and every visited plugin with a manifest is resolved,
    unless its own visit is still under way (it is on the [stack] of
    the calls). *)
Definition extends (manifests : gmap string PluginManifest)
    (st st1 : gset string * list string) (new : list string) : Prop :=
  st.1 ⊆ st1.1
  ∧ st1.2 = st.2 ++ new
  ∧ NoDup new
  ∧ (∀ x, x ∈ new →
       (x ∉ st.1) ∧ x ∈ st1.1
       ∧ ∃ m, manifests !! x = Some m
              ∧ ∀ d, d ∈ m_dependencies m → d ∈ st1.1)
  ∧ ∀ stack : list string,
      (∀ x, x ∈ st.1 → is_Some (manifests !! x) → x ∈ st.2 ∨ x ∈ stack) →
      (∀ x, x ∈ st1.1 → is_Some (manifests !! x) → x ∈ st1.2 ∨ x ∈ stack).

End DependencyFacts.
Export DependencyFacts.

(** * Properties *)

(** ** Stage conditions *)

Section Conditions.
Import Fixtures.

(** With no previous result, a stage runs exactly when its condition is
    [always]. *)
Lemma should_execute_first (env : ExecEnv) (stage : PipelineStage)
    (context : dict) :
  _should_execute_stage env stage None context
  = inr (bool_decide (stage_condition stage = always)).
Proof.
  unfold _should_execute_stage.
  destruct (decide (stage_condition stage = always)) as [Heq|Hne].
  - by rewrite bool_decide_eq_true_2.
  - reflexivity.
Qed.

(** C5, as stated, fails: the one-stage pipeline whose stage has the
    condition [on_success] is run with every plugin succeeding; the
    stage is evaluated with no previous result, the condition is not
    satisfied, and the stage ends in [stages_skipped], not in
    [stages_executed]. *)
Lemma on_success_first_stage_not_executed :
  _should_execute_stage env_single only_stage None ∅ = inr false
  ∧ pl_stages single = [only_stage]
  ∧ ∃ r, (execute env_single reg_all_ok job0 "single" ctx0).2 = inr r
         ∧ per_stages_executed r = []
         ∧ per_stages_skipped r = ["only"].
Proof.
  split; [reflexivity|]. split; [reflexivity|].
  eexists. split; [vm_compute; reflexivity|]. split; reflexivity.
Qed.

(** C5, amended: a stage with condition [on_success] that is evaluated
    with no previous stage result is not executed: the condition is
    treated as not satisfied and the loop records the stage as skipped
    and goes on. *)
Theorem on_success_first_stage_skipped (env : ExecEnv) (job : Job)
    (pipeline_id : string) (base_ctx : JobContext) (start_time : Z)
    (stage : PipelineStage) (st : LoopState) :
  stage_condition stage = on_success →
  last_result st = None →
  _should_execute_stage env stage (last_result st) (running_context st)
  = inr false
  ∧ stage_step env job pipeline_id base_ctx start_time stage st
    = Continue (skip_stage stage st).
Proof.
  intros Hcond Hnone.
  assert (Hno : _should_execute_stage env stage (last_result st)
                  (running_context st) = inr false).
  { rewrite Hnone, should_execute_first, Hcond. reflexivity. }
  split; [exact Hno|].
  unfold stage_step. rewrite Hno. reflexivity.
Qed.

Lemma on_success_first_stage_skipped_witness :
  _should_execute_stage env_single only_stage None ∅ = inr false
  ∧ stage_step env_single job0 "single" ctx0 0 only_stage
      (initial_state env_single reg_all_ok job0 "single" single)
    = Continue (skip_stage only_stage
        (initial_state env_single reg_all_ok job0 "single" single)).
Proof.
  apply (on_success_first_stage_skipped env_single job0 "single" ctx0 0
           only_stage
           (initial_state env_single reg_all_ok job0 "single" single));
    reflexivity.
Defined.

(** C10: a stage whose condition is [conditional] and whose
    [condition_expr] is unset (None or the empty string) is skipped
    when it is evaluated with no previous stage result, and is executed
    whenever a previous stage has produced a result, whatever that
    result (its success flag, its findings) and the pipeline context
    (its risk score) are. *)
Theorem conditional_without_expr (env : ExecEnv) (job : Job)
    (pipeline_id : string) (base_ctx : JobContext) (start_time : Z)
    (stage : PipelineStage) (st : LoopState) :
  stage_condition stage = conditional →
  stage_condition_expr stage = None ∨ stage_condition_expr stage = Some "" →
  (∀ context, _should_execute_stage env stage None context = inr false)
  ∧ (∀ last context,
       _should_execute_stage env stage (Some last) context = inr true)
  ∧ stage_step env job pipeline_id base_ctx start_time stage st
    = match last_result st with
      | None => Continue (skip_stage stage st)
      | Some _ =>
          execute_stage env job pipeline_id base_ctx start_time stage st
      end.
Proof.
  intros Hcond Hexpr.
  assert (Hno : ∀ context,
            _should_execute_stage env stage None context = inr false).
  { intros context. rewrite should_execute_first, Hcond. reflexivity. }
  assert (Hyes : ∀ last context,
            _should_execute_stage env stage (Some last) context = inr true).
  { intros last context. unfold _should_execute_stage. rewrite Hcond.
    destruct (decide (conditional = always)) as [Habs|_]; [discriminate|].
    destruct Hexpr as [-> | ->]; reflexivity. }
  split; [exact Hno|]. split; [exact Hyes|].
  unfold stage_step. destruct (last_result st) as [last|].
  - by rewrite Hyes.
  - by rewrite Hno.
Qed.

Lemma conditional_without_expr_witness :
  let st := initial_state env0 reg_all_ok job0 "quicklook" quicklook in
  (∀ context,
     _should_execute_stage env0 bare_conditional None context = inr false)
  ∧ (∀ last context,
       _should_execute_stage env0 bare_conditional (Some last) context
       = inr true)
  ∧ stage_step env0 job0 "quicklook" ctx0 0 bare_conditional st
    = match last_result st with
      | None => Continue (skip_stage bare_conditional st)
      | Some _ =>
          execute_stage env0 job0 "quicklook" ctx0 0 bare_conditional st
      end.
Proof.
  apply (conditional_without_expr env0 job0 "quicklook" ctx0 0
           bare_conditional
           (initial_state env0 reg_all_ok job0 "quicklook" quicklook)).
  - reflexivity.
  - left. reflexivity.
Defined.

(** A gate whose result is unsuccessful, then the bare conditional stage:
    the conditional stage is executed.  Alone in its pipeline, it is
    skipped. *)
Example bare_conditional_runs :
  ∃ r1 r2,
    (execute env_conditional reg_gate_unsuccessful job0 "gated" ctx0).2
    = inr r1
    ∧ per_stages_executed r1 = ["gate"; "maybe"]
    ∧ per_stages_skipped r1 = []
    ∧ (execute env_conditional reg_gate_unsuccessful job0 "ungated" ctx0).2
      = inr r2
    ∧ per_stages_executed r2 = []
    ∧ per_stages_skipped r2 = ["maybe"].
Proof.
  do 2 eexists. split; [vm_compute; reflexivity|].
  split; [reflexivity|]. split; [reflexivity|].
  split; [vm_compute; reflexivity|]. split; reflexivity.
Qed.

End Conditions.

(** ** The instance cache of the registry *)

Section InstanceCache.
Import Fixtures.

(** A call of [get_instance] that returns leaves the returned instance
    in the cache, under the key of the call. *)
Lemma get_instance_cached (env : RegistryEnv) (reg reg1 : PluginRegistry)
    (plugin_id : string) (config : option dict) (inst : Plugin) (h : Z) :
  hash_items env (default ∅ config) = inr h →
  get_instance env reg plugin_id config = (reg1, inr inst) →
  _instances reg1 !! cache_key plugin_id h = Some inst.
Proof.
  intros Hh. unfold get_instance. rewrite Hh.
  destruct (_instances reg !! cache_key plugin_id h) as [cached|] eqn:Hc.
  - intros [= <- <-]. exact Hc.
  - destruct (load env reg plugin_id) as [reg0 [e|cls]]; [discriminate|].
    destruct (_manifests reg0 !! plugin_id) as [manifest|]; [|discriminate].
    intros [= <- <-]. simpl. apply lookup_insert_eq.
Qed.

(** C9: two calls of [get_instance] with the same plugin id and equal
    configs ([None] counting as the empty config, as [config or {}]
    has it) return the same instance: when the first call returns
    [inst], the second returns that very object, and it leaves the
    registry as it was, so it has built nothing. *)
Theorem get_instance_twice (env : RegistryEnv) (reg reg1 : PluginRegistry)
    (plugin_id : string) (config config' : option dict) (inst : Plugin) :
  default ∅ config' = default ∅ config →
  get_instance env reg plugin_id config = (reg1, inr inst) →
  get_instance env reg1 plugin_id config' = (reg1, inr inst).
Proof.
  intros Heq Hfirst.
  destruct (hash_items env (default ∅ config)) as [e|h] eqn:Hh.
  { unfold get_instance in Hfirst. rewrite Hh in Hfirst. discriminate. }
  pose proof (get_instance_cached _ _ _ _ _ _ _ Hh Hfirst) as Hcached.
  unfold get_instance. rewrite Heq, Hh, Hcached. reflexivity.
Qed.

Lemma get_instance_twice_witness :
  let cfg : dict := <["mode" := VStr "fast"]> ∅ in
  ∃ reg1 inst,
    get_instance registry_env0 reg_all_ok "umbriel" (Some cfg)
    = (reg1, inr inst)
    ∧ obj_id inst = 0
    ∧ get_instance registry_env0 reg1 "umbriel"
        (Some (<["mode" := VStr "fast"]> ∅)) = (reg1, inr inst).
Proof.
  intros cfg.
  destruct (get_instance registry_env0 reg_all_ok "umbriel" (Some cfg))
    as [reg1 [e|inst]] eqn:Hfirst; [vm_compute in Hfirst; discriminate|].
  exists reg1, inst. split; [reflexivity|]. split.
  - vm_compute in Hfirst. by injection Hfirst as <- <-.
  - apply (get_instance_twice registry_env0 reg_all_ok reg1 "umbriel"
             (Some cfg) (Some (<["mode" := VStr "fast"]> ∅)) inst);
      [reflexivity | exact Hfirst].
Defined.

(** Without a config the second call finds the instance built for the
    empty config. *)
Example get_instance_none_then_empty :
  ∃ reg1 inst,
    get_instance registry_env0 reg_all_ok "noema" None = (reg1, inr inst)
    ∧ get_instance registry_env0 reg1 "noema" (Some ∅) = (reg1, inr inst).
Proof. do 2 eexists. split; vm_compute; reflexivity. Qed.

End InstanceCache.

(** ** The registry: loading and caching *)

Section RegistryCache.
Import Fixtures.

(** X14: a plugin class is imported once: after a [load] that returned
    the class, every later [load] of the same id returns that class from
    [_plugins], whatever the plugins directory holds by then, and leaves
    the registry as it is. *)
Theorem second_load_needs_no_import (env env' : RegistryEnv)
    (reg reg1 : PluginRegistry) (plugin_id : string) (cls : PluginClass) :
  load env reg plugin_id = (reg1, inr cls) →
  load env' reg1 plugin_id = (reg1, inr cls).
Proof.
  unfold load.
  destruct (_plugins reg !! plugin_id) as [c|] eqn:Hc.
  - intros [= <- <-]. by rewrite Hc.
  - destruct (_manifests reg !! plugin_id); [|discriminate].
    destruct (import_plugin env plugin_id) as [e|c]; [discriminate|].
    intros [= <- <-]. cbn. by rewrite lookup_insert_eq.
Qed.

Lemma second_load_needs_no_import_witness :
  ∃ reg1 cls,
    load importing_env discovered_registry "umbriel" = (reg1, inr cls)
    ∧ load registry_env0 reg1 "umbriel" = (reg1, inr cls).
Proof.
  destruct (load importing_env discovered_registry "umbriel")
    as [reg1 [e|cls]] eqn:Hload; [vm_compute in Hload; discriminate|].
  exists reg1, cls. split; [reflexivity|].
  exact (second_load_needs_no_import importing_env registry_env0
           discovered_registry reg1 "umbriel" cls Hload).
Defined.

(** X15: the instance cache tells configs apart by their hash only.
    When two configs have the same hash, the instance built for the
    first is returned for the second, still configured with the
    first. *)
Theorem colliding_configs_share_instance (env : RegistryEnv)
    (reg reg1 : PluginRegistry) (plugin_id : string)
    (config1 config2 : option dict) (h : Z) (inst : Plugin) :
  hash_items env (default ∅ config1) = inr h →
  hash_items env (default ∅ config2) = inr h →
  _instances reg !! cache_key plugin_id h = None →
  get_instance env reg plugin_id config1 = (reg1, inr inst) →
  get_instance env reg1 plugin_id config2 = (reg1, inr inst)
  ∧ p_config inst = default ∅ config1.
Proof.
  intros Hh1 Hh2 Hmiss Hfirst. split.
  - pose proof (get_instance_cached _ _ _ _ _ _ _ Hh1 Hfirst) as Hcached.
    unfold get_instance. by rewrite Hh2, Hcached.
  - revert Hfirst. unfold get_instance. rewrite Hh1, Hmiss.
    destruct (load env reg plugin_id) as [reg0 [e|cls]]; [discriminate|].
    destruct (_manifests reg0 !! plugin_id); [|discriminate].
    by intros [= <- <-].
Qed.

Lemma colliding_configs_share_instance_witness :
  let fast : dict := <["mode" := VStr "fast"]> ∅ in
  let deep : dict := <["mode" := VStr "deep"]> ∅ in
  ∃ reg1 inst,
    get_instance registry_env0 reg_all_ok "umbriel" (Some fast)
    = (reg1, inr inst)
    ∧ get_instance registry_env0 reg1 "umbriel" (Some deep)
      = (reg1, inr inst)
    ∧ p_config inst = fast.
Proof.
  intros fast deep.
  destruct (get_instance registry_env0 reg_all_ok "umbriel" (Some fast))
    as [reg1 [e|inst]] eqn:Hfirst; [vm_compute in Hfirst; discriminate|].
  exists reg1, inst. split; [reflexivity|].
  apply (colliding_configs_share_instance registry_env0 reg_all_ok reg1
           "umbriel" (Some fast) (Some deep) 1 inst).
  - reflexivity.
  - reflexivity.
  - reflexivity.
  - exact Hfirst.
Defined.

(** X16: registering a plugin class does not touch the instance cache:
    an instance obtained before is still returned after, also when the
    class registered is a new class for the same plugin id. *)
Theorem reregistered_plugin_keeps_cached_instance (env : RegistryEnv)
    (reg reg1 : PluginRegistry) (plugin_id : string) (config : option dict)
    (inst : Plugin) (cls : PluginClass) (manifest : PluginManifest) :
  get_instance env reg plugin_id config = (reg1, inr inst) →
  get_instance env (register_plugin reg1 cls manifest) plugin_id config
  = (register_plugin reg1 cls manifest, inr inst).
Proof.
  intros Hfirst.
  destruct (hash_items env (default ∅ config)) as [e|h] eqn:Hh.
  { unfold get_instance in Hfirst. rewrite Hh in Hfirst. discriminate. }
  pose proof (get_instance_cached _ _ _ _ _ _ _ Hh Hfirst) as Hcached.
  unfold get_instance. rewrite Hh. cbn [register_plugin _instances].
  by rewrite Hcached.
Qed.

Lemma reregistered_plugin_keeps_cached_instance_witness :
  let other := constant_plugin "Other" (inr (plain_result false)) in
  ∃ reg1 inst,
    get_instance registry_env0 reg_all_ok "umbriel" None = (reg1, inr inst)
    ∧ get_instance registry_env0
        (register_plugin reg1 other (manifest "umbriel")) "umbriel" None
      = (register_plugin reg1 other (manifest "umbriel"), inr inst)
    ∧ cls_name (p_class inst) = "Umbriel".
Proof.
  intros other.
  assert (H : match (get_instance registry_env0 reg_all_ok "umbriel" None).2
              with
              | inr inst => Some (cls_name (p_class inst))
              | inl _ => None
              end = Some "Umbriel") by (vm_compute; reflexivity).
  destruct (get_instance registry_env0 reg_all_ok "umbriel" None)
    as [reg1 [e|inst]] eqn:Hfirst; [discriminate|].
  exists reg1, inst. split; [reflexivity|]. split; [|by injection H].
  exact (reregistered_plugin_keeps_cached_instance registry_env0 reg_all_ok
           reg1 "umbriel" None inst other (manifest "umbriel") Hfirst).
Defined.

(** X17: a call of [get_instance] that raises has cached no instance
    and built no object; it leaves the manifests as they were (it may
    have loaded the plugin class). *)
Theorem failed_get_instance_caches_nothing (env : RegistryEnv)
    (reg reg1 : PluginRegistry) (plugin_id : string) (config : option dict)
    (e : exn) :
  get_instance env reg plugin_id config = (reg1, inl e) →
  _instances reg1 = _instances reg
  ∧ _manifests reg1 = _manifests reg
  ∧ next_obj reg1 = next_obj reg.
Proof.
  unfold get_instance.
  destruct (hash_items env (default ∅ config)) as [e0|h];
    [by intros [= <- _]|].
  destruct (_instances reg !! cache_key plugin_id h); [discriminate|].
  destruct (load env reg plugin_id) as [reg0 loaded] eqn:Hload.
  assert (Hkeep : _instances reg0 = _instances reg
                  ∧ _manifests reg0 = _manifests reg
                  ∧ next_obj reg0 = next_obj reg).
  { revert Hload. unfold load.
    destruct (_plugins reg !! plugin_id); [by intros [= <- _]|].
    destruct (_manifests reg !! plugin_id); [|by intros [= <- _]].
    destruct (import_plugin env plugin_id); by intros [= <- _]. }
  destruct loaded as [e0|cls]; [by intros [= <- _]|].
  destruct (_manifests reg0 !! plugin_id); [discriminate|].
  by intros [= <- _].
Qed.

Lemma failed_get_instance_caches_nothing_witness :
  ∃ reg1 e,
    get_instance registry_env0 reg_all_ok "unknown" None = (reg1, inl e)
    ∧ _instances reg1 = _instances reg_all_ok
    ∧ _manifests reg1 = _manifests reg_all_ok
    ∧ next_obj reg1 = next_obj reg_all_ok.
Proof.
  destruct (get_instance registry_env0 reg_all_ok "unknown" None)
    as [reg1 [e|inst]] eqn:Hget; [|vm_compute in Hget; discriminate].
  exists reg1, e. split; [reflexivity|].
  exact (failed_get_instance_caches_nothing registry_env0 reg_all_ok reg1
           "unknown" None e Hget).
Defined.

End RegistryCache.

(** ** The registry: dependency resolution *)

Section Dependencies.
Import Fixtures.

Variable manifests : gmap string PluginManifest.

Local Abbreviation state := (gset string * list string)%type.

Local Abbreviation extends := (DependencyFacts.extends manifests).

Lemma extends_refl (st : state) : extends st st [].
Proof.
  unfold DependencyFacts.extends. rewrite app_nil_r. split_and!; try done.
  - constructor.
  - intros x Hx. by apply elem_of_nil in Hx.
Qed.

Lemma visit_all_extends (visit1 : string → state → option state)
    (deps : list string) :
  (∀ dep st st1, dep ∈ deps → visit1 dep st = Some st1 →
     dep ∈ st1.1 ∧ ∃ new, extends st st1 new) →
  ∀ st st1, visit_all visit1 deps st = Some st1 →
    (∀ d, d ∈ deps → d ∈ st1.1) ∧ ∃ new, extends st st1 new.
Proof.
  induction deps as [|dep deps IH]; intros Hvisit st st1; cbn.
  - intros [= <-]. split; [by intros d Hd%elem_of_nil|].
    exists []. apply extends_refl.
  - destruct (visit1 dep st) as [st0|] eqn:Hdep; [|discriminate].
    intros Hrest.
    destruct (Hvisit dep st st0) as (Hin & new1 & Hsub1 & Hres1 & Hnd1
                                     & Hnew1 & Hstack1);
      [by apply elem_of_cons; left|exact Hdep|].
    destruct (IH (λ d s s1 Hd, Hvisit d s s1
                    (proj2 (elem_of_cons _ _ _) (or_intror Hd)))
                st0 st1 Hrest)
      as (Hdeps & new2 & Hsub2 & Hres2 & Hnd2 & Hnew2 & Hstack2).
    split.
    { intros d [->|Hd]%elem_of_cons; [set_solver|by apply Hdeps]. }
    exists (new1 ++ new2). split; [set_solver|].
    split; [by rewrite Hres2, Hres1, app_assoc|].
    split.
    { apply list.NoDup_app. split; [exact Hnd1|]. split; [|exact Hnd2].
      intros x Hx1 Hx2. destruct (Hnew1 x Hx1) as (_ & Hx & _).
      by destruct (Hnew2 x Hx2) as (Hnx & _). }
    split.
    { intros x [Hx|Hx]%elem_of_app.
      - destruct (Hnew1 x Hx) as (Hnx & Hx0 & m & Hm & Hd).
        split; [exact Hnx|]. split; [set_solver|].
        exists m. split; [exact Hm|]. intros d Hdin.
        specialize (Hd d Hdin). set_solver.
      - destruct (Hnew2 x Hx) as (Hnx & Hx1 & Hm).
        split; [|by split]. intros Hxs. apply Hnx. set_solver. }
    intros stack Hst. by apply Hstack2, Hstack1.
Qed.

Lemma visit_extends (depth : nat) (pid : string) (st st1 : state) :
  visit manifests depth pid st = Some st1 →
  pid ∈ st1.1
  ∧ ∃ new, extends st st1 new
           ∧ (pid ∉ st.1 → is_Some (manifests !! pid) →
              list.last new = Some pid).
Proof.
  revert pid st st1. induction depth as [|depth IH]; intros pid st st1; cbn;
    [discriminate|].
  destruct (decide (pid ∈ st.1)) as [Hin|Hnin].
  { intros [= <-]. split; [exact Hin|]. exists [].
    split; [apply extends_refl|done]. }
  destruct (manifests !! pid) as [m|] eqn:Hm.
  - destruct (visit_all (visit manifests depth) (m_dependencies m)
                ({[pid]} ∪ st.1, st.2)) as [st0|] eqn:Hall; [|discriminate].
    intros [= <-]. cbn [fst snd].
    destruct (visit_all_extends (visit manifests depth) (m_dependencies m)
                (λ dep s s1 _ Hv,
                   match IH dep s s1 Hv with
                   | conj Hd (ex_intro _ new (conj Hext _)) =>
                       conj Hd (ex_intro _ new Hext)
                   end)
                _ _ Hall)
      as (Hdeps & new & Hsub & Hres & Hnd & Hnew & Hstack).
    cbn [fst snd] in *.
    split; [set_solver|].
    exists (new ++ [pid]). split; [|intros _ _; apply last_snoc].
    split; [set_solver|].
    split; [by rewrite Hres, app_assoc|].
    split.
    { apply list.NoDup_app. split; [exact Hnd|]. split; [|apply list.NoDup_singleton].
      intros x Hx Hpid. apply list_elem_of_singleton in Hpid. subst x.
      destruct (Hnew pid Hx) as (Hnx & _). set_solver. }
    split.
    { intros x [Hx|Hx]%elem_of_app;
        [|apply list_elem_of_singleton in Hx; subst x].
      - destruct (Hnew x Hx) as (Hnx & Hx0 & Hmx).
        split; [set_solver|]. by split.
      - split; [exact Hnin|]. split; [set_solver|].
        by exists m. }
    intros stack Hst x Hx Hmx.
    destruct (decide (x = pid)) as [->|Hne].
    { left. apply elem_of_app. right. by apply list_elem_of_singleton. }
    destruct (Hstack (pid :: stack)) with (x := x) as [Hr|Hs]; try done.
    + intros y [Hy|Hy]%elem_of_union Hmy;
        [apply elem_of_singleton in Hy; subst y|].
      * right. by apply elem_of_cons; left.
      * destruct (Hst y Hy Hmy) as [?|?]; [by left|].
        right. by apply elem_of_cons; right.
    + left. apply elem_of_app. by left.
    + apply elem_of_cons in Hs as [->|Hs]; [done|by right].
  - intros [= <-]. cbn [fst snd]. split; [set_solver|].
    exists []. split; [|by intros _ [? [=]]].
    unfold DependencyFacts.extends. cbn [fst snd]. rewrite app_nil_r.
    split; [set_solver|]. split; [done|]. split; [constructor|].
    split; [by intros x Hx%elem_of_nil|].
    intros stack Hst x [Hx|Hx]%elem_of_union Hmx;
      [apply elem_of_singleton in Hx; subst x|].
    + rewrite Hm in Hmx. by destruct Hmx.
    + by apply Hst.
Qed.

(** The recursion goes no deeper than there are manifests not yet
    visited. *)
Lemma visit_returns (depth : nat) (pid : string) (st : state) :
  (size (dom manifests ∖ st.1) < depth)%nat →
  is_Some (visit manifests depth pid st).
Proof.
  revert pid st. induction depth as [|depth IH]; intros pid st Hsize; [lia|].
  cbn. destruct (decide (pid ∈ st.1)); [by eexists|].
  destruct (manifests !! pid) as [m|] eqn:Hm; [|by eexists].
  assert (Hless : (size (dom manifests ∖ ({[pid]} ∪ st.1)) < depth)%nat).
  { assert (dom manifests ∖ ({[pid]} ∪ st.1) ⊂ dom manifests ∖ st.1).
    { apply elem_of_dom_2 in Hm. set_solver. }
    apply subset_size in H. lia. }
  assert (Hall : ∀ deps (st0 : state),
            (size (dom manifests ∖ st0.1) < depth)%nat →
            is_Some (visit_all (visit manifests depth) deps st0)).
  { induction deps as [|dep deps IHdeps]; intros st0 Hst0; cbn;
      [by eexists|].
    destruct (IH dep st0 Hst0) as [st1 Hst1]. rewrite Hst1.
    apply IHdeps.
    destruct (visit_extends _ _ _ _ Hst1) as (_ & new & (Hsub & _) & _).
    assert (dom manifests ∖ st1.1 ⊆ dom manifests ∖ st0.1) by set_solver.
    apply subseteq_size in H. lia. }
  destruct (Hall (m_dependencies m) ({[pid]} ∪ st.1, st.2) Hless)
    as [st1 Hst1].
  rewrite Hst1. by eexists.
Qed.

End Dependencies.

Section DependencyResults.
Import Fixtures.

(** X18: [resolve_dependencies] returns for every plugin that has a
    manifest, whatever the dependencies are, circular ones included:
    the recursion of [visit] goes no deeper than there are manifests,
    so a recursion limit above their number is never reached. *)
Theorem resolve_dependencies_returns (reg : PluginRegistry) (depth : nat)
    (plugin_id : string) :
  is_Some (_manifests reg !! plugin_id) →
  (size (_manifests reg) < depth)%nat →
  ∃ order, resolve_dependencies reg depth plugin_id = inr order.
Proof.
  intros [m Hm] Hdepth. unfold resolve_dependencies. rewrite Hm.
  destruct (visit_returns (_manifests reg) depth plugin_id (∅, []))
    as [st Hst].
  { cbn. rewrite difference_empty_L, size_dom. exact Hdepth. }
  rewrite Hst. by eexists.
Qed.

Lemma resolve_dependencies_returns_witness :
  ∃ order, resolve_dependencies circular_registry 3 "alpha" = inr order.
Proof.
  apply (resolve_dependencies_returns circular_registry 3 "alpha").
  - by eexists.
  - vm_compute. lia.
Defined.

(** X19: the list [resolve_dependencies] returns names each plugin once,
    names only plugins that have a manifest, ends with the plugin asked
    for, and is closed under dependencies: with a plugin it holds every
    dependency of that plugin that has a manifest. *)
Theorem resolved_order_is_closed (reg : PluginRegistry) (depth : nat)
    (plugin_id : string) (order : list string) :
  resolve_dependencies reg depth plugin_id = inr order →
  NoDup order
  ∧ list.last order = Some plugin_id
  ∧ ∀ x, x ∈ order →
      ∃ m, _manifests reg !! x = Some m
           ∧ ∀ d, d ∈ m_dependencies m → is_Some (_manifests reg !! d) →
                  d ∈ order.
Proof.
  unfold resolve_dependencies.
  destruct (_manifests reg !! plugin_id) as [m0|] eqn:Hm0; [|discriminate].
  destruct (visit (_manifests reg) depth plugin_id (∅, [])) as [st|] eqn:Hst;
    [|discriminate].
  intros [= <-].
  destruct (visit_extends _ _ _ _ _ Hst)
    as (_ & new & (_ & Hres & Hnd & Hnew & Hstack) & Hlast).
  cbn [fst snd] in *. rewrite app_nil_l in Hres. subst new.
  split; [exact Hnd|]. split; [apply Hlast; [set_solver|by eexists]|].
  intros x Hx. destruct (Hnew x Hx) as (_ & _ & m & Hm & Hdeps).
  exists m. split; [exact Hm|]. intros d Hd Hmd.
  assert (Hall : ∀ y, y ∈ st.1 → is_Some (_manifests reg !! y) →
                      y ∈ st.2 ∨ y ∈ []).
  { apply Hstack. intros y Hy. set_solver. }
  destruct (Hall d (Hdeps d Hd) Hmd) as [Hr|Hs];
    [exact Hr|by apply elem_of_nil in Hs].
Qed.

Lemma resolved_order_is_closed_witness :
  resolve_dependencies circular_registry 3 "alpha" = inr ["beta"; "alpha"]
  ∧ NoDup ["beta"; "alpha"]
  ∧ list.last ["beta"; "alpha"] = Some "alpha"
  ∧ ∀ x, x ∈ ["beta"; "alpha"] →
      ∃ m, _manifests circular_registry !! x = Some m
           ∧ ∀ d, d ∈ m_dependencies m →
                  is_Some (_manifests circular_registry !! d) →
                  d ∈ ["beta"; "alpha"].
Proof.
  assert (H : resolve_dependencies circular_registry 3 "alpha"
              = inr ["beta"; "alpha"]) by (vm_compute; reflexivity).
  split; [exact H|].
  exact (resolved_order_is_closed circular_registry 3 "alpha"
           ["beta"; "alpha"] H).
Defined.

End DependencyResults.

(** ** The executor: what counts as a stage failure *)

Section StageFailure.
Import Fixtures.

(** C1, as stated, fails: quicklook is run with a gate plugin whose
    [run] returns a result with [success=false] and raises nothing.
    The gate is not optional, yet the run does not halt with an error:
    "gate" is in [stages_executed], [stages_failed] is empty, and the
    result carries no error and [success=true]. *)
Lemma unsuccessful_result_is_not_a_stage_failure :
  (∃ gate, pl_stages quicklook !! 0%nat = Some gate
           ∧ stage_name gate = "gate" ∧ stage_optional gate = false)
  ∧ pr_success (plain_result false) = false
  ∧ ∃ r, (execute env0 reg_gate_unsuccessful job0 "quicklook" ctx0).2 = inr r
         ∧ per_stages_executed r = ["gate"]
         ∧ per_stages_failed r = []
         ∧ per_stages_skipped r = ["static"; "intent"]
         ∧ per_error r = None
         ∧ per_success r = true.
Proof.
  split; [eexists; repeat split; reflexivity|]. split; [reflexivity|].
  eexists. split; [vm_compute; reflexivity|]. repeat split; reflexivity.
Qed.

(** C1, amended: when the plugin of an executed stage returns a
    PluginResult with [success=false] without raising (and the
    completion callback, if there is one, does not raise), the executor
    records the stage as executed, not as failed: its name is appended
    to [stages_executed], [stages_failed] is left as it was, the
    result's findings are aggregated and the result becomes the
    previous result of the next stage.  The run does not halt on it,
    optional or not: the loop goes on with the next stage, unless the
    result sets [skip_remaining]. *)
Theorem unsuccessful_result_recorded_as_executed (env : ExecEnv) (job : Job)
    (pipeline_id : string) (base_ctx : JobContext) (start_time : Z)
    (stage : PipelineStage) (st : LoopState) (reg1 : PluginRegistry)
    (plugin : Plugin) (returned : PluginResult) :
  _should_execute_stage env stage (last_result st) (running_context st)
  = inr true →
  get_instance (registry_env env) (registry st) (stage_plugin_id stage)
    (Some (stage_config stage)) = (reg1, inr plugin) →
  validate plugin (stage_context job base_ctx st) = None →
  run plugin (stage_context job base_ctx st) = inr returned →
  pr_success returned = false →
  stage_callback env (stage_name stage) (annotate stage returned) = None →
  ∃ st1,
    stage_step env job pipeline_id base_ctx start_time stage st
    = (if pr_skip_remaining returned then Break st1 else Continue st1)
    ∧ stages_executed st1 = stages_executed st ++ [stage_name stage]
    ∧ stages_failed st1 = stages_failed st
    ∧ all_findings st1
      = all_findings st ++ (annotate_finding stage <$> pr_findings returned)
    ∧ last_result st1 = Some (annotate stage returned).
Proof.
  intros Hcond Hget Hval Hrun _ Hcb.
  unfold stage_step, execute_stage, try_stage.
  rewrite Hcond, Hget, Hval, Hrun, Hcb. cbn [annotate pr_skip_remaining].
  eexists. split; [reflexivity|]. repeat split; reflexivity.
Qed.

Lemma unsuccessful_result_recorded_as_executed_witness :
  let st := initial_state env0 reg_gate_unsuccessful job0 "quicklook"
              quicklook in
  ∃ gate st1,
    pl_stages quicklook !! 0%nat = Some gate
    ∧ stage_step env0 job0 "quicklook" ctx0 0 gate st = Continue st1
    ∧ stages_executed st1 = stages_executed st ++ ["gate"]
    ∧ stages_failed st1 = stages_failed st
    ∧ last_result st1 = Some (annotate gate (plain_result false)).
Proof.
  intros st.
  destruct (pl_stages quicklook !! 0%nat) as [gate|] eqn:Hgate;
    [|vm_compute in Hgate; discriminate].
  assert (Hg : gate =
    {| stage_name := "gate"; stage_plugin_id := "umbriel";
       stage_config := <["mode" := VStr "fast"]>
                         (<["skip_entropy" := VBool false]> ∅);
       stage_condition := always; stage_condition_expr := None;
       stage_timeout_seconds := 300; stage_optional := false |}).
  { vm_compute in Hgate. injection Hgate as <-. vm_compute. reflexivity. }
  destruct (get_instance (registry_env env0) (registry st)
              (stage_plugin_id gate) (Some (stage_config gate)))
    as [reg1 [e|plugin]] eqn:Hget;
    [rewrite Hg in Hget; vm_compute in Hget; discriminate|].
  assert (Hrun : run plugin (stage_context job0 ctx0 st)
                 = inr (plain_result false)).
  { rewrite Hg in Hget. vm_compute in Hget. injection Hget as <- <-.
    reflexivity. }
  assert (Hval : validate plugin (stage_context job0 ctx0 st) = None).
  { rewrite Hg in Hget. vm_compute in Hget. injection Hget as <- <-.
    reflexivity. }
  destruct (unsuccessful_result_recorded_as_executed env0 job0 "quicklook"
              ctx0 0 gate st reg1 plugin (plain_result false))
    as (st1 & Hstep & Hexec & Hfail & _ & Hlast);
    [rewrite Hg; reflexivity | exact Hget | exact Hval | exact Hrun
    | reflexivity | reflexivity |].
  exists gate, st1. split; [reflexivity|]. split; [exact Hstep|].
  split; [rewrite Hexec, Hg; reflexivity|]. split; [exact Hfail|exact Hlast].
Defined.

End StageFailure.

(** ** The executor: the success flag *)

Section SuccessFlag.
Import Fixtures.

(** The early return of the [except] clause: the result has
    [success=False] and the failed stage is the last of its
    [stages_failed]. *)
Lemma handle_failure_return (env : ExecEnv) (job : Job) (pid : string)
    (start : Z) (stage : PipelineStage) (st st1 : LoopState) (e : exn)
    (r : PipelineExecutionResult) :
  handle_failure env job pid start stage st e = Return st1 r →
  stage_optional stage = false
  ∧ per_success r = false
  ∧ per_stages_failed r = stages_failed st ++ [stage_name stage].
Proof.
  unfold handle_failure.
  destruct (stage_optional stage); cbn [negb]; [discriminate|].
  intros [= <- <-]. repeat split; reflexivity.
Qed.

Lemma stage_step_return (env : ExecEnv) (job : Job) (pid : string)
    (base : JobContext) (start : Z) (stage : PipelineStage)
    (st st1 : LoopState) (r : PipelineExecutionResult) :
  stage_step env job pid base start stage st = Return st1 r →
  stage_optional stage = false
  ∧ per_success r = false
  ∧ ∃ failed, per_stages_failed r = failed ++ [stage_name stage].
Proof.
  unfold stage_step, execute_stage.
  destruct (_should_execute_stage env stage (last_result st)
              (running_context st)) as [e|[|]]; try discriminate.
  destruct (try_stage env job base stage st) as [st2 [e|result]].
  - intros H. apply handle_failure_return in H as (? & ? & ?). eauto.
  - destruct (pr_skip_remaining result); discriminate.
Qed.

Lemma run_stages_returned (env : ExecEnv) (job : Job) (pid : string)
    (base : JobContext) (start : Z) (stages : list PipelineStage)
    (st st1 : LoopState) (r : PipelineExecutionResult) :
  run_stages env job pid base start stages st = Returned st1 r →
  per_success r = false
  ∧ ∃ stage failed, stage ∈ stages ∧ stage_optional stage = false
      ∧ per_stages_failed r = failed ++ [stage_name stage].
Proof.
  revert st. induction stages as [|stage rest IH]; intros st; cbn.
  - discriminate.
  - destruct (stage_step env job pid base start stage st)
      as [st2|st2|st2 r2|st2 e] eqn:Hstep; try discriminate.
    + intros H. apply IH in H as (Hs & stage' & failed & Hin & Hopt & Hf).
      split; [exact Hs|]. exists stage', failed.
      split; [apply elem_of_cons; by right|]. by split.
    + intros [= <- <-].
      apply stage_step_return in Hstep as (Hopt & Hs & failed & Hf).
      split; [exact Hs|]. exists stage, failed.
      split; [apply elem_of_cons; by left|]. by split.
Qed.

(** C2, as stated, fails: quicklook is run with a static analyzer that
    raises.  The only failed stage, "static", is optional, so no
    non-optional stage failed; the run goes on to the end and its
    result has [success=false]. *)
Lemma optional_failure_clears_success :
  ∃ r, (execute env0 reg_static_raises job0 "quicklook" ctx0).2 = inr r
       ∧ per_stages_executed r = ["gate"; "intent"]
       ∧ per_stages_failed r = ["static"]
       ∧ (∀ stage, stage ∈ pl_stages quicklook →
            stage_name stage ∈ per_stages_failed r →
            stage_optional stage = true)
       ∧ per_error r = None
       ∧ per_success r = false.
Proof.
  eexists. split; [vm_compute; reflexivity|].
  split; [reflexivity|]. split; [reflexivity|].
  split; [|split; reflexivity].
  intros stage Hin Hfailed. cbn in Hfailed.
  apply list_elem_of_singleton in Hfailed.
  change (pl_stages quicklook) with
    (pl_stages (new_pipeline "quicklook" "Quicklook"
       "Fast triage: Umbriel gate, Static summary, Noema intent"
       ["fast"; "triage"]) ++
     [ {| stage_name := "gate"; stage_plugin_id := "umbriel";
          stage_config := <["mode" := VStr "fast"]>
                            (<["skip_entropy" := VBool false]> ∅);
          stage_condition := always; stage_condition_expr := None;
          stage_timeout_seconds := 300; stage_optional := false |} ] ++
     [ {| stage_name := "static"; stage_plugin_id := "static_analyzer";
          stage_config := ∅;
          stage_condition := on_success; stage_condition_expr := None;
          stage_timeout_seconds := 300; stage_optional := true |} ] ++
     [ {| stage_name := "intent"; stage_plugin_id := "noema";
          stage_config := <["depth" := VStr "shallow"]> ∅;
          stage_condition := on_success; stage_condition_expr := None;
          stage_timeout_seconds := 300; stage_optional := false |} ]) in Hin.
  cbn in Hin.
  repeat (apply elem_of_cons in Hin as [->|Hin]); try reflexivity;
    try discriminate.
  by apply elem_of_nil in Hin.
Qed.

(** C2, amended: in every result that [execute] returns, the success
    flag is true if and only if no stage failed at all, optional or
    not, that is, if and only if [stages_failed] is empty. *)
Theorem success_iff_no_stage_failed (env : ExecEnv) (reg reg1 : PluginRegistry)
    (job : Job) (pipeline_id : string) (base_ctx : JobContext)
    (r : PipelineExecutionResult) :
  execute env reg job pipeline_id base_ctx = (reg1, inr r) →
  per_success r = true ↔ per_stages_failed r = [].
Proof.
  unfold execute, execute_loop.
  destruct (PIPELINES env !! pipeline_id) as [pipeline|]; [|discriminate].
  destruct (run_stages env job pipeline_id base_ctx (clock env 0)
              (pl_stages pipeline)
              (initial_state env reg job pipeline_id pipeline))
    as [st|st r1|st e] eqn:Hrun; [| |discriminate].
  - intros [= <- <-]. cbn. rewrite bool_decide_eq_true.
    split; [apply nil_length_inv|by intros ->].
  - intros [= <- <-].
    apply run_stages_returned in Hrun as (Hs & stage & failed & _ & _ & Hf).
    rewrite Hs, Hf. split; [discriminate|].
    intros Habs. by apply app_nil in Habs as [_ ?].
Qed.

Lemma success_iff_no_stage_failed_witness :
  ∃ r, (execute env0 reg_all_ok job0 "quicklook" ctx0).2 = inr r
       ∧ (per_success r = true ↔ per_stages_failed r = []).
Proof.
  destruct (execute env0 reg_all_ok job0 "quicklook" ctx0)
    as [reg1 [e|r]] eqn:Hrun; [vm_compute in Hrun; discriminate|].
  exists r. split; [reflexivity|].
  exact (success_iff_no_stage_failed env0 reg_all_ok reg1 job0 "quicklook"
           ctx0 r Hrun).
Defined.

(** The two ways a run ends.  With every plugin succeeding, quicklook
    executes its three stages; with a gate that raises, the run halts at
    the gate with an error result. *)
Example quicklook_runs_to_the_end :
  ∃ r, (execute env0 reg_all_ok job0 "quicklook" ctx0).2 = inr r
       ∧ per_stages_executed r = ["gate"; "static"; "intent"]
       ∧ per_stages_failed r = []
       ∧ per_success r = true.
Proof. eexists. split; [vm_compute; reflexivity|]. repeat split. Qed.

Example non_optional_failure_halts :
  ∃ r, (execute env0 reg_gate_raises job0 "quicklook" ctx0).2 = inr r
       ∧ per_stages_executed r = []
       ∧ per_stages_skipped r = []
       ∧ per_stages_failed r = ["gate"]
       ∧ per_error r = Some "Stage gate failed: boom"
       ∧ per_success r = false.
Proof. eexists. split; [vm_compute; reflexivity|]. repeat split. Qed.

Example unknown_pipeline_raises :
  (execute env0 reg_all_ok job0 "nonexistent" ctx0).2
  = inl (Exn ValueError "Unknown pipeline: nonexistent").
Proof. reflexivity. Qed.

End SuccessFlag.

(** ** The executor: trace events and their sequence values *)

Section TraceEvents.
Import Fixtures.

Variable env : ExecEnv.
Variable job : Job.
Variable pipeline_id : string.
Variable base_ctx : JobContext.
Variable start_time : Z.







End TraceEvents.

Section TraceEventResults.
Import Fixtures.




End TraceEventResults.

(** ** The timeline of a job *)

Section TimelineEvents.
Import Fixtures.

Lemma new_timeline_ok (job_id : Z) : timeline_ok (new_timeline job_id).
Proof.
  unfold timeline_ok. cbn. split; [done|]. split; [done|].
  split; [constructor|]. intros src. split.
  - by intros H%elem_of_nil.
  - by intros (e & H%elem_of_nil & _).
Qed.

Lemma add_event_ok (t : TraceTimeline) (event : TraceEvent) :
  timeline_ok t → timeline_ok (add_event t event).
Proof.
  intros (Hcount & Hts & Hnd & Hsrc). unfold timeline_ok. cbn.
  split; [done|]. split; [|split].
  - destruct (tl_start_ts t) as [start|], (tl_end_ts t) as [finish|];
      try done.
    + destruct Hts as ((e1 & He1 & Hs) & (e2 & He2 & Hf) & Hall).
      assert (start ≤ finish)%Z by (specialize (Hall e1 He1); lia).
      repeat case_bool_decide; (split; [|split]).
      all: try (intros e [He|He]%elem_of_app;
                [specialize (Hall e He); lia
                |apply list_elem_of_singleton in He; subst e; lia]).
      all: try (exists event; split; [apply elem_of_app; right;
                                      by apply list_elem_of_singleton|done]).
      all: try (exists e1; split; [apply elem_of_app; by left|done]).
      all: try (exists e2; split; [apply elem_of_app; by left|done]).
    + rewrite Hts. cbn.
      split; [|split].
      * exists event. split; [by apply list_elem_of_singleton|done].
      * exists event. split; [by apply list_elem_of_singleton|done].
      * intros e He. apply list_elem_of_singleton in He. subst e. lia.
  - case_bool_decide; [exact Hnd|].
    apply list.NoDup_app. split; [exact Hnd|].
    split; [|apply list.NoDup_singleton].
    intros x Hx Hx'. apply list_elem_of_singleton in Hx'. by subst x.
  - intros src. case_bool_decide as Hin.
    + rewrite Hsrc. split.
      * intros (e & He & Hs). exists e. split; [apply elem_of_app; by left|done].
      * intros (e & [He|He]%elem_of_app & Hs); [by exists e|].
        apply list_elem_of_singleton in He. subst e. subst src.
        by apply Hsrc.
    + rewrite elem_of_app, Hsrc, list_elem_of_singleton. split.
      * intros [(e & He & Hs)| ->].
        -- exists e. split; [apply elem_of_app; by left|done].
        -- exists event. split; [|done]. apply elem_of_app. right.
           by apply list_elem_of_singleton.
      * intros (e & [He|He]%elem_of_app & Hs); [left; by exists e|].
        apply list_elem_of_singleton in He. subst e. by right.
Qed.

(** X22: a timeline filled with [add_event] keeps its metadata right:
    its events are the events added, in the order they were added, the
    count is their number, [start_ts] and [end_ts] are the least and
    the greatest of their timestamps, and [sources] lists their
    sources, each once. *)
Theorem timeline_metadata_follows_events (job_id : Z)
    (added : list TraceEvent) :
  let t := foldl add_event (new_timeline job_id) added in
  tl_events t = added ∧ timeline_ok t.
Proof.
  cbn zeta.
  assert (H : ∀ t0, timeline_ok t0 →
            tl_events (foldl add_event t0 added) = tl_events t0 ++ added
            ∧ timeline_ok (foldl add_event t0 added)).
  { induction added as [|e added IH]; intros t0 Hok; cbn.
    - by rewrite app_nil_r.
    - destruct (IH (add_event t0 e) (add_event_ok t0 e Hok)) as [Hev Hok1].
      split; [|exact Hok1]. rewrite Hev. cbn. by rewrite <- app_assoc. }
  exact (H (new_timeline job_id) (new_timeline_ok job_id)).
Qed.

End TimelineEvents.

(** ** The executor: the running risk score *)

Section RiskScore.
Import Fixtures.

Lemma py_max_ge_left (a b : Qc) : (a ≤ py_max a b)%Qc.
Proof.
  unfold py_max. case_bool_decide as Hlt.
  - by apply Qclt_le_weak.
  - apply Qcle_refl.
Qed.

(** The local [max_risk], which becomes the result's [risk_score], never
    decreases over a stage. *)
Lemma try_stage_max_risk (env : ExecEnv) (job : Job) (base : JobContext)
    (stage : PipelineStage) (st st1 : LoopState) (out : Exc PluginResult) :
  try_stage env job base stage st = (st1, out) →
  (max_risk st ≤ max_risk st1)%Qc.
Proof.
  unfold try_stage.
  destruct (get_instance (registry_env env) (registry st)
              (stage_plugin_id stage) (Some (stage_config stage)))
    as [reg1 [e|plugin]]; [intros [= <- _]; apply Qcle_refl|].
  destruct (validate plugin (stage_context job base st));
    [intros [= <- _]; apply Qcle_refl|].
  destruct (run plugin (stage_context job base st)) as [e|returned];
    [intros [= <- _]; apply Qcle_refl|].
  assert (Hle : (max_risk st ≤ default (max_risk st)
             match risk_truthy (pr_risk_score (annotate stage returned)) with
             | Some r => Some (py_max (max_risk st) r)
             | None => None
             end)%Qc).
  { destruct (risk_truthy (pr_risk_score (annotate stage returned))); cbn;
      [apply py_max_ge_left|apply Qcle_refl]. }
  destruct (stage_callback env (stage_name stage) (annotate stage returned));
    intros [= <- _]; exact Hle.
Qed.

(** When a stage reports a risk score, the context entry is set to the
    running maximum. *)
Lemma try_stage_sets_risk_entry (env : ExecEnv) (job : Job) (base : JobContext)
    (stage : PipelineStage) (st st1 : LoopState) (result : PluginResult)
    (q : Qc) :
  try_stage env job base stage st = (st1, inr result) →
  risk_truthy (pr_risk_score result) = Some q →
  running_context st1 !! "_risk_score" = Some (VFloat (max_risk st1))
  ∧ max_risk st1 = py_max (max_risk st) q.
Proof.
  unfold try_stage.
  destruct (get_instance (registry_env env) (registry st)
              (stage_plugin_id stage) (Some (stage_config stage)))
    as [reg1 [e|plugin]]; [discriminate|].
  destruct (validate plugin (stage_context job base st)); [discriminate|].
  destruct (run plugin (stage_context job base st)) as [e|returned];
    [discriminate|].
  destruct (stage_callback env (stage_name stage) (annotate stage returned));
    [discriminate|].
  intros [= <- <-] Hq. cbn in Hq |- *. rewrite Hq. cbn.
  split; [apply lookup_insert_eq|reflexivity].
Qed.

(** C8 at the failing input: release-watch is run with a differ whose
    "diff" stage reports the risk score 0.9 and whose "risk-score" stage
    reports none but returns [context_data] with the key "_risk_score"
    set to 0.1.  After the first stage the context entry is 0.9, after
    the second it is 0.1: the merge of [context_data] has overwritten the
    entry, while the running maximum kept by the executor, and returned
    as the result's risk score, is still 0.9.  The stage "trace-deltas",
    whose condition is [on_high_risk], is skipped. *)
Theorem context_data_lowers_risk_entry :
  let st0 := initial_state env0 reg_rescoring job0 "release-watch"
               release_watch in
  ∃ diff rescoring st1 st2 r,
    pl_stages release_watch !! 0%nat = Some diff
    ∧ pl_stages release_watch !! 1%nat = Some rescoring
    ∧ stage_step env0 job0 "release-watch" ctx0 0 diff st0 = Continue st1
    ∧ stage_step env0 job0 "release-watch" ctx0 0 rescoring st1 = Continue st2
    ∧ running_context st1 !! "_risk_score" = Some (VFloat (Q2Qc (9 # 10)))
    ∧ running_context st2 !! "_risk_score" = Some (VFloat (Q2Qc (1 # 10)))
    ∧ max_risk st2 = Q2Qc (9 # 10)
    ∧ (execute env0 reg_rescoring job0 "release-watch" ctx0).2 = inr r
    ∧ per_stages_executed r = ["diff"; "risk-score"; "intent"]
    ∧ per_stages_skipped r = ["trace-deltas"]
    ∧ per_risk_score r = Q2Qc (9 # 10).
Proof.
  intros st0. do 5 eexists.
  split; [reflexivity|]. split; [reflexivity|].
  split; [vm_compute; reflexivity|]. split; [vm_compute; reflexivity|].
  split; [vm_compute; reflexivity|]. split; [vm_compute; reflexivity|].
  split; [vm_compute; reflexivity|]. split; [vm_compute; reflexivity|].
  repeat split; vm_compute; reflexivity.
Qed.

End RiskScore.

(** ** The orchestrator: cancelling a job *)

Section Cancel.
Import Fixtures Orchestrator.

(** C4, as stated, fails: the orchestrator holds job 7, which is still
    pending.  [cancel(7)] reports failure and leaves the job, the job
    table and the store as they were: the job remains pending. *)
Lemma cancel_pending_job_refused :
  _active_jobs orch_pending !! 7%Z = Some pending_job
  ∧ job_status pending_job = Schemas.pending
  ∧ cancel logging_callbacks orch_pending [] 7 = (orch_pending, [], false).
Proof. repeat split; vm_compute; reflexivity. Qed.

(** [cancel] on a job the orchestrator does not hold reports failure. *)
Lemma cancel_unknown_job {S : Type} (cb : Callbacks S) (o : Orchestrator)
    (store : S) (id : Z) :
  _active_jobs o !! id = None → cancel cb o store id = (o, store, false).
Proof. intros Hnone. unfold cancel. by rewrite Hnone. Qed.

(** C4, amended: for every job the orchestrator holds whose status is
    running, [cancel] sets the job's status to cancelled, hands the job
    to the update callback if there is one, touches no other job and
    reports success; on a job in any other status, pending included,
    [cancel] changes nothing and reports failure. *)
Theorem cancel_only_running {S : Type} (cb : Callbacks S) (o : Orchestrator)
    (store : S) (id : Z) (job : Job) :
  _active_jobs o !! id = Some job →
  (job_status job = Schemas.running →
     ∃ o1 store1,
       cancel cb o store id = (o1, store1, true)
       ∧ _active_jobs o1 !! id = Some (set_status job Schemas.cancelled)
       ∧ (∀ id', id' ≠ id → _active_jobs o1 !! id' = _active_jobs o !! id')
       ∧ store1 = match _update_job cb with
                  | Some update =>
                      update (set_status job Schemas.cancelled) store
                  | None => store
                  end)
  ∧ (job_status job ≠ Schemas.running →
     cancel cb o store id = (o, store, false)).
Proof.
  intros Hjob. unfold cancel. rewrite Hjob. split.
  - intros Hrun. rewrite decide_True by exact Hrun.
    do 2 eexists. split; [reflexivity|]. cbn.
    split; [apply lookup_insert_eq|]. split; [|reflexivity].
    intros id' Hne. by apply lookup_insert_ne.
  - intros Hnot. by rewrite decide_False by exact Hnot.
Qed.

Lemma cancel_only_running_witness :
  (job_status (set_status pending_job Schemas.running) = Schemas.running →
     ∃ o1 store1,
       cancel logging_callbacks orch_running [] 7 = (o1, store1, true)
       ∧ _active_jobs o1 !! 7%Z
         = Some (set_status (set_status pending_job Schemas.running)
                   Schemas.cancelled)
       ∧ (∀ id', id' ≠ 7%Z →
            _active_jobs o1 !! id' = _active_jobs orch_running !! id')
       ∧ store1 = match _update_job logging_callbacks with
                  | Some update =>
                      update (set_status
                                (set_status pending_job Schemas.running)
                                Schemas.cancelled) []
                  | None => []
                  end)
  ∧ (job_status (set_status pending_job Schemas.running) ≠ Schemas.running →
     cancel logging_callbacks orch_running [] 7 = (orch_running, [], false)).
Proof.
  apply (cancel_only_running logging_callbacks orch_running [] 7
           (set_status pending_job Schemas.running)).
  reflexivity.
Defined.

(** The running job of [orch_running] is cancelled, and the callback sees
    it. *)
Example cancel_running_job :
  ∃ o1, cancel logging_callbacks orch_running [] 7
        = (o1, [set_status pending_job Schemas.cancelled], true)
        ∧ job_status <$> _active_jobs o1 !! 7%Z = Some Schemas.cancelled.
Proof. eexists. split; vm_compute; reflexivity. Qed.

End Cancel.

(** ** The orchestrator: cancelling twice, persisting results *)

Section OrchestratorMore.
Import Fixtures Orchestrator.

(** X20: a job can be cancelled once: after a [cancel] that reported
    success, a second [cancel] of the same job reports failure, changes
    nothing and does not call the update callback again. *)
Theorem cancel_twice_refused {S : Type} (cb : Callbacks S) (o o1 : Orchestrator)
    (store store1 : S) (id : Z) :
  cancel cb o store id = (o1, store1, true) →
  cancel cb o1 store1 id = (o1, store1, false).
Proof.
  unfold cancel at 1.
  destruct (_active_jobs o !! id) as [job|]; [|discriminate].
  destruct (decide (job_status job = Schemas.running)); [|discriminate].
  intros [= <- <-]. unfold cancel. cbn. by rewrite lookup_insert_eq.
Qed.

Lemma cancel_twice_refused_witness :
  ∃ o1 store1,
    cancel logging_callbacks orch_running [] 7 = (o1, store1, true)
    ∧ cancel logging_callbacks o1 store1 7 = (o1, store1, false).
Proof.
  destruct (cancel logging_callbacks orch_running [] 7) as [[o1 store1] ok]
    eqn:Hcancel.
  assert (ok = true) as ->.
  { assert (H : (cancel logging_callbacks orch_running [] 7).2 = true)
      by (vm_compute; reflexivity).
    by rewrite Hcancel in H. }
  exists o1, store1. split; [reflexivity|].
  exact (cancel_twice_refused logging_callbacks orch_running o1 [] store1 7
           Hcancel).
Defined.

(** A loop of [_persist_results] hands every row to its callback, in
    order, whatever the callback raised for the rows before. *)
Lemma persist_rows_store {S A : Type} (what : string)
    (persist : A → S → S * option exn) (rows : list A) (store : S)
    (log : list string) :
  (persist_rows what persist rows store log).1
  = foldl (λ s row, (persist row s).1) store rows.
Proof.
  revert store log. induction rows as [|row rows IH]; intros store log; cbn.
  - reflexivity.
  - destruct (persist row store) as [store1 [e|]]; cbn; apply IH.
Qed.

Lemma persist_with_store {S A : Type} (what : string)
    (persist : A → S → S * option exn) (rows : list A)
    (sl : S * list string) :
  (persist_with what (Some persist) rows sl).1
  = foldl (λ s row, (persist row s).1) sl.1 rows.
Proof. apply persist_rows_store. Qed.

(** X21: [_persist_results] hands every finding, then every artifact,
    then every trace event of the result to its callback, in the order
    of the result: a callback that raises for a row does not keep the
    rows after it from being handed over, and the job table is left as
    it was. *)
Theorem persist_results_offers_every_row {S : Type} (cb : Callbacks S)
    (o : Orchestrator) (store : S) (result : PipelineExecutionResult)
    (on_finding : Finding → S → S * option exn)
    (on_artifact : Artifact → S → S * option exn)
    (on_event : TraceEvent → S → S * option exn) :
  _persist_finding cb = Some on_finding →
  _persist_artifact cb = Some on_artifact →
  _persist_event cb = Some on_event →
  (_persist_results cb o store result).2
  = foldl (λ s row, (on_event row s).1)
      (foldl (λ s row, (on_artifact row s).1)
         (foldl (λ s row, (on_finding row s).1) store
            (per_total_findings result))
         (per_total_artifacts result))
      (per_total_events result)
  ∧ _active_jobs (_persist_results cb o store result).1 = _active_jobs o.
Proof.
  intros Hf Ha He. unfold _persist_results. rewrite Hf, Ha, He.
  cbn [fst snd _active_jobs]. split; [|reflexivity].
  by rewrite !persist_with_store.
Qed.

Lemma persist_results_offers_every_row_witness :
  (_persist_results recording_callbacks orch_empty [] sample_result).2
  = ["first"; "second"; "anti_analysis_report.json"]
  ∧ _active_jobs (_persist_results recording_callbacks orch_empty []
                    sample_result).1
    = _active_jobs orch_empty.
Proof.
  destruct (persist_results_offers_every_row recording_callbacks orch_empty
              [] sample_result _ _ _ eq_refl eq_refl eq_refl) as [Hs Hj].
  split; [rewrite Hs; reflexivity|exact Hj].
Defined.

End OrchestratorMore.

(** ** The worker task *)

Section Worker.
Import Fixtures Models Repository Tasks.

(** A session whose store has its [jobs] table replaced. *)
Local Abbreviation on_jobs s table :=
  {| store := set_jobs (store s) table; inactive := inactive s |}.

(** The row writes never read the [jobs] table. *)
Lemma create_finding_set_jobs (fault : RowWrite → option exn) (s : Session)
    (table : gmap Z Models.Job) (f : Finding) :
  create_finding fault (on_jobs s table) f
  = (on_jobs (create_finding fault s f).1 table,
     (create_finding fault s f).2).
Proof.
  unfold create_finding, commit_row. destruct s as [db [|]]; cbn; [done|].
  by destruct (fault (WFinding f)).
Qed.

Lemma create_artifact_set_jobs (fault : RowWrite → option exn) (s : Session)
    (table : gmap Z Models.Job) (a : Artifact) :
  create_artifact fault (on_jobs s table) a
  = (on_jobs (create_artifact fault s a).1 table,
     (create_artifact fault s a).2).
Proof.
  unfold create_artifact, commit_row. destruct s as [db [|]]; cbn; [done|].
  by destruct (fault (WArtifact a)).
Qed.

Lemma create_trace_event_set_jobs (fault : RowWrite → option exn)
    (s : Session) (table : gmap Z Models.Job) (ev : TraceEvent) :
  create_trace_event fault (on_jobs s table) ev
  = (on_jobs (create_trace_event fault s ev).1 table,
     (create_trace_event fault s ev).2).
Proof.
  unfold create_trace_event, commit_row. destruct s as [db [|]]; cbn; [done|].
  by destruct (fault (WTraceEvent ev)).
Qed.

Lemma persist_all_set_jobs {A : Type}
    (create : Session → A → Session * option exn)
    (rows : list A) (s : Session) (table : gmap Z Models.Job) :
  (∀ s0 row, create (on_jobs s0 table) row
             = (on_jobs (create s0 row).1 table, (create s0 row).2)) →
  persist_all create rows (on_jobs s table)
  = (on_jobs (persist_all create rows s).1 table,
     (persist_all create rows s).2).
Proof.
  intros Hcreate. revert s. induction rows as [|row rest IH]; intros s; cbn.
  - reflexivity.
  - rewrite Hcreate. destruct (create s row) as [s1 [e|]]; [reflexivity|].
    apply IH.
Qed.

(** A session is inactive after a loop exactly when the loop was left
    by an exception, and it is left by one only if the store rejects a
    row. *)
Lemma commit_row_inactive (fault : RowWrite → option exn) (s : Session)
    (w : RowWrite) (insert : DB) :
  inactive s = false →
  inactive (commit_row fault s w insert).1
  = bool_decide (is_Some (commit_row fault s w insert).2)
  ∧ (is_Some (commit_row fault s w insert).2 → is_Some (fault w)).
Proof.
  intros Hs. unfold commit_row. rewrite Hs.
  destruct (fault w) as [e|]; cbn; split; try done; by intros [? [=]].
Qed.

Lemma persist_all_inactive {A : Type} (fault : RowWrite → option exn)
    (create : Session → A → Session * option exn)
    (rows : list A) (s : Session) :
  (∀ s0 row, inactive s0 = false →
     inactive (create s0 row).1 = bool_decide (is_Some (create s0 row).2)
     ∧ (is_Some (create s0 row).2 → ∃ w, is_Some (fault w))) →
  inactive s = false →
  inactive (persist_all create rows s).1
  = bool_decide (is_Some (persist_all create rows s).2)
  ∧ (is_Some (persist_all create rows s).2 → ∃ w, is_Some (fault w)).
Proof.
  intros Hcreate. revert s. induction rows as [|row rest IH]; intros s Hs; cbn.
  - split; [done|]. by intros [? [=]].
  - destruct (Hcreate s row Hs) as [Hi Hw].
    destruct (create s row) as [s1 [e|]]; cbn in *; [by split|].
    by apply IH.
Qed.

Lemma create_finding_inactive (fault : RowWrite → option exn) (s : Session)
    (f : Finding) :
  inactive s = false →
  inactive (create_finding fault s f).1
  = bool_decide (is_Some (create_finding fault s f).2)
  ∧ (is_Some (create_finding fault s f).2 → ∃ w, is_Some (fault w)).
Proof.
  intros Hs. destruct (commit_row_inactive fault s (WFinding f)
    {| jobs := jobs (store s); findings := findings (store s) ++ [f];
       artifacts := artifacts (store s);
       trace_events := trace_events (store s);
       events := events (store s) |} Hs) as [Hi Hw].
  split; [exact Hi|]. intros H. eexists. by apply Hw.
Qed.

Lemma create_artifact_inactive (fault : RowWrite → option exn) (s : Session)
    (a : Artifact) :
  inactive s = false →
  inactive (create_artifact fault s a).1
  = bool_decide (is_Some (create_artifact fault s a).2)
  ∧ (is_Some (create_artifact fault s a).2 → ∃ w, is_Some (fault w)).
Proof.
  intros Hs. destruct (commit_row_inactive fault s (WArtifact a)
    {| jobs := jobs (store s); findings := findings (store s);
       artifacts := artifacts (store s) ++ [a];
       trace_events := trace_events (store s);
       events := events (store s) |} Hs) as [Hi Hw].
  split; [exact Hi|]. intros H. eexists. by apply Hw.
Qed.

Lemma create_trace_event_inactive (fault : RowWrite → option exn)
    (s : Session) (ev : TraceEvent) :
  inactive s = false →
  inactive (create_trace_event fault s ev).1
  = bool_decide (is_Some (create_trace_event fault s ev).2)
  ∧ (is_Some (create_trace_event fault s ev).2 → ∃ w, is_Some (fault w)).
Proof.
  intros Hs. destruct (commit_row_inactive fault s (WTraceEvent ev)
    {| jobs := jobs (store s); findings := findings (store s);
       artifacts := artifacts (store s);
       trace_events := trace_events (store s) ++ [ev];
       events := events (store s) |} Hs) as [Hi Hw].
  split; [exact Hi|]. intros H. eexists. by apply Hw.
Qed.

(** Writing a status and a result over a job row forgets the status and
    the result the row had. *)
Lemma update_job_status_put (db : DB) (table : gmap Z Models.Job) (key : Z)
    (row : Models.Job) (s0 s : Models.JobStatus) (r0 : option dict)
    (r : dict) :
  update_job_status
    {| store := set_jobs db (<[key := with_status row s0 r0]> table);
       inactive := false |} key s (Some r)
  = ({| store := set_jobs db (<[key := with_status row s (Some r)]> table);
        inactive := false |},
     inr (Some (with_status row s (Some r)))).
Proof.
  unfold update_job_status. cbn. rewrite lookup_insert_eq. cbn.
  unfold put_job, set_jobs. cbn. by rewrite insert_insert_eq.
Qed.

Lemma update_job_status_running (db : DB) (key : Z) (row : Models.Job)
    (s0 : Models.JobStatus) (r0 : option dict) :
  update_job_status (open_session (put_job db key (with_status row s0 r0)))
    key running None
  = ({| store := set_jobs db (<[key := with_status row running r0]> (jobs db));
        inactive := false |},
     inr (Some (with_status row running r0))).
Proof.
  unfold update_job_status, open_session, put_job. cbn.
  rewrite lookup_insert_eq. cbn.
  unfold put_job, set_jobs. cbn. by rewrite insert_insert_eq.
Qed.

Lemma model_validate_running (row : Models.Job) (r1 r2 : option dict) :
  model_validate (with_status row running r1)
  = model_validate (with_status row running r2).
Proof. reflexivity. Qed.

(** The [try] block of [process_job], started on a stored job row,
    does not look at the status and the result the row had: either it
    raises, always the same exception, leaving the row running with its
    old result, and the session inactive only if the store rejects some
    row; or it returns, always the same dictionary and the same
    store. *)
Lemma try_process_job_put (env : WorkerEnv) (db : DB) (reg : PluginRegistry)
    (key : Z) (row : Models.Job) (target : string) :
  (∃ db1 reg1 e (b : bool),
     (b = true → ∃ w, is_Some (fault env w))
     ∧ ∀ s0 r0,
       try_process_job env
         (open_session (put_job db key (with_status row s0 r0))) reg
         key target
       = ({| store :=
               set_jobs db1 (<[key := with_status row running r0]> (jobs db));
             inactive := b |}, reg1, inl e))
  ∨ (∃ db1 reg1 st final,
       (st = completed ∨ st = failed)
       ∧ ∀ s0 r0,
         try_process_job env
           (open_session (put_job db key (with_status row s0 r0))) reg
           key target
         = ({| store :=
                 set_jobs db1
                   (<[key := with_status row st (Some final)]> (jobs db));
               inactive := false |}, reg1, inr final)).
Proof.
  set (pid := pipeline_or_default (Models.pipeline_id row)).
  assert (Hstart : ∀ s r,
    try_process_job env
      (open_session (put_job db key (with_status row s r))) reg key target
    = let s1 := {| store := set_jobs db
                     (<[key := with_status row running r]> (jobs db));
                   inactive := false |} in
      match model_validate (with_status row running None) with
      | inl e => (s1, reg, inl e)
      | inr job_schema =>
        let ctx := task_context env key target job_schema in
        match execute (exec_env env) reg job_schema pid ctx with
        | (reg1, inl e) => (s1, reg1, inl e)
        | (reg1, inr result) =>
          match persist_all (create_finding (fault env))
                  (per_total_findings result) s1 with
          | (s2, Some e) => (s2, reg1, inl e)
          | (s2, None) =>
            match persist_all (create_artifact (fault env))
                    (per_total_artifacts result) s2 with
            | (s3, Some e) => (s3, reg1, inl e)
            | (s3, None) =>
              match persist_all (create_trace_event (fault env))
                      (per_total_events result) s3 with
              | (s4, Some e) => (s4, reg1, inl e)
              | (s4, None) =>
                match update_job_status s4 key
                        (if per_success result then completed else failed)
                        (Some (summary pid result)) with
                | (s5, inl e) => (s5, reg1, inl e)
                | (s5, inr _) => (s5, reg1, inr (summary pid result))
                end
              end
            end
          end
        end
      end).
  { intros s r. unfold try_process_job.
    unfold open_session at 1, put_job at 1. cbn [store jobs set_jobs].
    rewrite lookup_insert_eq.
    rewrite update_job_status_running. cbn [from_option].
    unfold Datatypes.id.
    rewrite (model_validate_running row r None).
    reflexivity. }
  cbn zeta in Hstart.
  destruct (model_validate (with_status row running None)) as [e|job_schema]
    eqn:Hvalid.
  { left. exists db, reg, e, false. split; [discriminate|].
    intros s r. by rewrite Hstart. }
  set (ctx := task_context env key target job_schema) in Hstart.
  destruct (execute (exec_env env) reg job_schema pid ctx)
    as [reg1 [e|res]] eqn:Hexec.
  { left. exists db, reg1, e, false. split; [discriminate|].
    intros s r. by rewrite Hstart. }
  set (start := open_session db).
  pose proof (persist_all_inactive (fault env) (create_finding (fault env))
                (per_total_findings res) start
                (create_finding_inactive (fault env)) eq_refl) as Hif.
  destruct (persist_all (create_finding (fault env))
              (per_total_findings res) start) as [s2 o2] eqn:Hf.
  cbn [fst snd] in Hif.
  assert (Hcommon2 : ∀ s r,
    try_process_job env
      (open_session (put_job db key (with_status row s r))) reg key target
    = match o2 with
      | Some e =>
          (on_jobs s2 (<[key := with_status row running r]> (jobs db)),
           reg1, inl e)
      | None =>
        match persist_all (create_artifact (fault env))
                (per_total_artifacts res)
                (on_jobs s2 (<[key := with_status row running r]> (jobs db)))
        with
        | (s3, Some e) => (s3, reg1, inl e)
        | (s3, None) =>
          match persist_all (create_trace_event (fault env))
                  (per_total_events res) s3 with
          | (s4, Some e) => (s4, reg1, inl e)
          | (s4, None) =>
            match update_job_status s4 key
                    (if per_success res then completed else failed)
                    (Some (summary pid res)) with
            | (s5, inl e) => (s5, reg1, inl e)
            | (s5, inr _) => (s5, reg1, inr (summary pid res))
            end
          end
        end
      end).
  { intros s r. rewrite Hstart.
    change {| store := set_jobs db
                (<[key := with_status row running r]> (jobs db));
              inactive := false |}
      with (on_jobs start (<[key := with_status row running r]> (jobs db))).
    rewrite (persist_all_set_jobs (create_finding (fault env)))
      by (intros; apply create_finding_set_jobs).
    rewrite Hf. cbn [fst snd]. by destruct o2. }
  destruct o2 as [e|].
  { left. exists (store s2), reg1, e, (inactive s2).
    split; [intros _; apply Hif; by eexists|].
    intros s r. by rewrite Hcommon2. }
  destruct Hif as [Hi2 _]. cbn in Hi2.
  pose proof (persist_all_inactive (fault env) (create_artifact (fault env))
                (per_total_artifacts res) s2
                (create_artifact_inactive (fault env)) Hi2) as Hia.
  destruct (persist_all (create_artifact (fault env))
              (per_total_artifacts res) s2) as [s3 o3] eqn:Ha.
  cbn [fst snd] in Hia.
  assert (Hcommon3 : ∀ s r,
    try_process_job env
      (open_session (put_job db key (with_status row s r))) reg key target
    = match o3 with
      | Some e =>
          (on_jobs s3 (<[key := with_status row running r]> (jobs db)),
           reg1, inl e)
      | None =>
        match persist_all (create_trace_event (fault env))
                (per_total_events res)
                (on_jobs s3 (<[key := with_status row running r]> (jobs db)))
        with
        | (s4, Some e) => (s4, reg1, inl e)
        | (s4, None) =>
          match update_job_status s4 key
                  (if per_success res then completed else failed)
                  (Some (summary pid res)) with
          | (s5, inl e) => (s5, reg1, inl e)
          | (s5, inr _) => (s5, reg1, inr (summary pid res))
          end
        end
      end).
  { intros s r. rewrite Hcommon2.
    rewrite (persist_all_set_jobs (create_artifact (fault env)))
      by (intros; apply create_artifact_set_jobs).
    rewrite Ha. cbn [fst snd]. by destruct o3. }
  destruct o3 as [e|].
  { left. exists (store s3), reg1, e, (inactive s3).
    split; [intros _; apply Hia; by eexists|].
    intros s r. by rewrite Hcommon3. }
  destruct Hia as [Hi3 _]. cbn in Hi3.
  pose proof (persist_all_inactive (fault env)
                (create_trace_event (fault env))
                (per_total_events res) s3
                (create_trace_event_inactive (fault env)) Hi3) as Hie.
  destruct (persist_all (create_trace_event (fault env))
              (per_total_events res) s3) as [s4 o4] eqn:He.
  cbn [fst snd] in Hie.
  assert (Hcommon4 : ∀ s r,
    try_process_job env
      (open_session (put_job db key (with_status row s r))) reg key target
    = match o4 with
      | Some e =>
          (on_jobs s4 (<[key := with_status row running r]> (jobs db)),
           reg1, inl e)
      | None =>
          ({| store := set_jobs (store s4)
                (<[key := with_status row
                     (if per_success res then completed else failed)
                     (Some (summary pid res))]> (jobs db));
              inactive := false |}, reg1, inr (summary pid res))
      end).
  { intros s r. rewrite Hcommon3.
    rewrite (persist_all_set_jobs (create_trace_event (fault env)))
      by (intros; apply create_trace_event_set_jobs).
    rewrite He. cbn [fst snd]. destruct o4 as [e|]; [reflexivity|].
    destruct Hie as [Hi4 _]. cbn in Hi4. rewrite Hi4.
    by rewrite update_job_status_put. }
  destruct o4 as [e|].
  { left. exists (store s4), reg1, e, (inactive s4).
    split; [intros _; apply Hie; by eexists|].
    intros s r. by rewrite Hcommon4. }
  right. exists (store s4), reg1,
    (if per_success res then completed else failed), (summary pid res).
  split; [destruct (per_success res); [by left|by right]|].
  intros s r. by rewrite Hcommon4.
Qed.

(** C3, as stated, fails: job 1 is completed, with the summary of a run
    that found nothing, and its task is delivered again.  [process_job]
    does not no-op: it runs quicklook again, writes two findings, one
    artifact and four trace events, and replaces the job's result. *)
Lemma redelivered_job_runs_again :
  (λ j, (status j, result j ≫= (.!! "findings_count")))
    <$> jobs db_completed !! 1%Z = Some (completed, Some (VInt 0))
  ∧ ∃ db1 reg1 final,
      process_job wenv0 (db_completed, reg_findings) 1 "/samples/a.bin"
      = ((db1, reg1), inr final)
      ∧ f_title <$> findings db1 = ["first"; "second"]
      ∧ length (artifacts db1) = 1%nat
      ∧ length (trace_events db1) = 4%nat
      ∧ (λ j, (status j, result j ≫= (.!! "findings_count")))
          <$> jobs db1 !! 1%Z = Some (completed, Some (VInt 2))
      ∧ final !! "stages_executed"
        = Some (VList [VStr "gate"; VStr "static"; VStr "intent"]).
Proof.
  split; [vm_compute; reflexivity|].
  assert (H :
    let out :=
      process_job wenv0 (db_completed, reg_findings) 1 "/samples/a.bin" in
    (f_title <$> findings out.1.1, length (artifacts out.1.1),
     length (trace_events out.1.1),
     (λ j, (status j, result j ≫= (.!! "findings_count")))
       <$> jobs out.1.1 !! 1%Z,
     match out.2 with
     | inr final => Some (final !! "stages_executed")
     | inl _ => None
     end)
    = (["first"; "second"], 1%nat, 4%nat, Some (completed, Some (VInt 2)),
       Some (Some (VList [VStr "gate"; VStr "static"; VStr "intent"]))))
    by (vm_compute; reflexivity).
  cbn zeta in H.
  destruct (process_job wenv0 (db_completed, reg_findings) 1 "/samples/a.bin")
    as [[db1 reg1] [e|final]]; cbn [fst snd] in H; [discriminate|].
  exists db1, reg1, final. injection H as ? ? ? ? ?. by repeat split.
Qed.

(** C3, amended: [process_job] makes no check of the status a job
    already has.  Invoked for a stored job in any status, terminal or
    not, it does what it does for a pending job: it marks the job
    running, executes the pipeline, persists the results and overwrites
    the job's status and result.  The store, the registry and the
    outcome it ends with are the same whatever status the job row had;
    and they are the same whatever result the row had as long as the
    store rejects no row (after a rejected row the session is inactive
    and the row keeps the result it had). *)
Theorem process_job_ignores_prior_status (env : WorkerEnv) (db : DB)
    (reg : PluginRegistry) (key : Z) (row : Models.Job)
    (s1 s2 : Models.JobStatus) (r1 r2 : option dict) (target : string) :
  license_ok env = true →
  r1 = r2 ∨ (∀ w, fault env w = None) →
  process_job env (put_job db key (with_status row s1 r1), reg) key target
  = process_job env (put_job db key (with_status row s2 r2), reg) key target.
Proof.
  intros Hlicense Hsame. unfold process_job. rewrite Hlicense.
  cbn [negb fst snd].
  destruct (try_process_job_put env db reg key row target)
    as [(db1 & reg1 & e & b & Hb & Htry)
       |(db1 & reg1 & st & final & _ & Htry)].
  - rewrite (Htry s1 r1), (Htry s2 r2). destruct b.
    + destruct Hsame as [->|Hok]; [reflexivity|].
      destruct (Hb eq_refl) as [w [x Hw]]. rewrite Hok in Hw. discriminate.
    + unfold except_clause. rewrite !update_job_status_put. reflexivity.
  - rewrite (Htry s1 r1), (Htry s2 r2). reflexivity.
Qed.

Lemma process_job_ignores_prior_status_witness :
  process_job wenv0
    (put_job db_pending 1
       (with_status (job_row pending None) completed
          (Some (<["findings_count" := VInt 0]> ∅))), reg_findings)
    1 "/samples/a.bin"
  = process_job wenv0
      (put_job db_pending 1 (with_status (job_row pending None) pending None),
       reg_findings)
      1 "/samples/a.bin".
Proof.
  apply (process_job_ignores_prior_status wenv0 db_pending reg_findings 1
           (job_row pending None) completed pending
           (Some (<["findings_count" := VInt 0]> ∅)) None "/samples/a.bin").
  - reflexivity.
  - right. intros w. reflexivity.
Defined.

(** With a store that rejects no row, a loop appends the rows in order
    and leaves the session active. *)
Lemma persist_all_findings_no_fault (fault : RowWrite → option exn)
    (rows : list Finding) (s : Session) :
  (∀ w, fault w = None) →
  inactive s = false →
  persist_all (create_finding fault) rows s
  = ({| store :=
          {| jobs := jobs (store s); findings := findings (store s) ++ rows;
             artifacts := artifacts (store s);
             trace_events := trace_events (store s);
             events := events (store s) |};
        inactive := false |}, None).
Proof.
  intros Hok. revert s. induction rows as [|row rest IH]; intros s Hs; cbn.
  - rewrite app_nil_r. destruct s as [[] ?]. cbn in *. by subst.
  - unfold create_finding at 1, commit_row. rewrite Hs, Hok, IH by done.
    cbn. by rewrite <- app_assoc.
Qed.

(** The first rejected row ends a loop of [process_job]: the rows after
    it are not written, and the session is left inactive. *)
Lemma persist_all_stops_at_fault (fault : RowWrite → option exn)
    (before after : list Finding) (f : Finding) (s : Session) (e : exn) :
  (∀ f0, f0 ∈ before → fault (WFinding f0) = None) →
  fault (WFinding f) = Some e →
  inactive s = false →
  persist_all (create_finding fault) (before ++ f :: after) s
  = ({| store :=
          {| jobs := jobs (store s);
             findings := findings (store s) ++ before;
             artifacts := artifacts (store s);
             trace_events := trace_events (store s);
             events := events (store s) |};
        inactive := true |}, Some e).
Proof.
  intros Hbefore Hf. revert s.
  induction before as [|b rest IH]; intros s Hs; cbn.
  - unfold create_finding, commit_row. rewrite Hs, Hf, app_nil_r.
    by destruct s as [[] ?].
  - unfold create_finding at 1, commit_row.
    rewrite Hs, Hbefore by (apply elem_of_cons; by left).
    rewrite IH by (done || intros f0 Hin; apply Hbefore, elem_of_cons; by right).
    cbn. by rewrite <- app_assoc.
Qed.

(** C6 at the failing input: job 1 is pending, quicklook returns two
    findings, one artifact and four trace events, and the store rejects
    the first finding.  [process_job] leaves the persistence loops at
    that write: the second finding, the artifact and the trace events
    are never written.  The session being inactive, the [except] clause
    itself raises, PendingRollbackError, at its first statement: the job
    is left running, no job_failed event is recorded, and that exception
    leaves the task. *)
Theorem failed_write_aborts_persistence :
  ∃ r db1 reg1 e,
    (execute env0 reg_findings job0 "quicklook" ctx0).2 = inr r
    ∧ f_title <$> per_total_findings r = ["first"; "second"]
    ∧ length (per_total_artifacts r) = 1%nat
    ∧ length (per_total_events r) = 4%nat
    ∧ reject_first (WFinding (finding_titled "second")) = None
    ∧ process_job wenv_faulty (db_pending, reg_findings) 1 "/samples/a.bin"
      = ((db1, reg1), inl e)
    ∧ exn_class e = PendingRollbackError
    ∧ findings db1 = []
    ∧ artifacts db1 = []
    ∧ trace_events db1 = []
    ∧ status <$> jobs db1 !! 1%Z = Some running
    ∧ events db1 = [].
Proof.
  assert (Hx :
    match (execute env0 reg_findings job0 "quicklook" ctx0).2 with
    | inr r => Some (f_title <$> per_total_findings r,
                     length (per_total_artifacts r),
                     length (per_total_events r))
    | inl _ => None
    end = Some (["first"; "second"], 1%nat, 4%nat))
    by (vm_compute; reflexivity).
  assert (Hp :
    let out :=
      process_job wenv_faulty (db_pending, reg_findings) 1 "/samples/a.bin" in
    (match out.2 with
     | inl e => Some (exn_class e)
     | inr _ => None
     end, findings out.1.1, artifacts out.1.1, trace_events out.1.1,
     status <$> jobs out.1.1 !! 1%Z, events out.1.1)
    = (Some PendingRollbackError, [], [], [], Some running, []))
    by (vm_compute; reflexivity).
  cbn zeta in Hp.
  destruct (process_job wenv_faulty (db_pending, reg_findings) 1
              "/samples/a.bin") as [[db1 reg1] [e|final]];
    cbn [fst snd] in Hp; [|discriminate].
  destruct (execute env0 reg_findings job0 "quicklook" ctx0).2 as [e0|r];
    [discriminate|].
  exists r, db1, reg1, e. injection Hx as ? ? ?. injection Hp as ? ? ? ? ? ?.
  by repeat split.
Qed.

(** *** What the task leaves in the store *)

Lemma persist_all_artifacts_no_fault (fault : RowWrite → option exn)
    (rows : list Artifact) (s : Session) :
  (∀ w, fault w = None) →
  inactive s = false →
  persist_all (create_artifact fault) rows s
  = ({| store :=
          {| jobs := jobs (store s); findings := findings (store s);
             artifacts := artifacts (store s) ++ rows;
             trace_events := trace_events (store s);
             events := events (store s) |};
        inactive := false |}, None).
Proof.
  intros Hok. revert s. induction rows as [|row rest IH]; intros s Hs; cbn.
  - rewrite app_nil_r. destruct s as [[] ?]. cbn in *. by subst.
  - unfold create_artifact at 1, commit_row. rewrite Hs, Hok, IH by done.
    cbn. by rewrite <- app_assoc.
Qed.

Lemma persist_all_events_no_fault (fault : RowWrite → option exn)
    (rows : list TraceEvent) (s : Session) :
  (∀ w, fault w = None) →
  inactive s = false →
  persist_all (create_trace_event fault) rows s
  = ({| store :=
          {| jobs := jobs (store s); findings := findings (store s);
             artifacts := artifacts (store s);
             trace_events := trace_events (store s) ++ rows;
             events := events (store s) |};
        inactive := false |}, None).
Proof.
  intros Hok. revert s. induction rows as [|row rest IH]; intros s Hs; cbn.
  - rewrite app_nil_r. destruct s as [[] ?]. cbn in *. by subst.
  - unfold create_trace_event at 1, commit_row. rewrite Hs, Hok, IH by done.
    cbn. by rewrite <- app_assoc.
Qed.

(** In an active session [update_job_status] overwrites the row. *)
Lemma update_job_status_active (s : Session) (key : Z) (row : Models.Job)
    (st : Models.JobStatus) (r : option dict) :
  inactive s = false →
  jobs (store s) !! key = Some row →
  update_job_status s key st r
  = ({| store := put_job (store s) key
                   (with_status row st
                      match r with Some x => Some x | None => result row end);
        inactive := false |},
     inr (Some (with_status row st
                  match r with Some x => Some x | None => result row end))).
Proof. intros Hs Hrow. unfold update_job_status. by rewrite Hs, Hrow. Qed.

(** A stored row is the row put under its key. *)
Lemma put_job_stored (db : DB) (key : Z) (row : Models.Job) :
  jobs db !! key = Some row →
  db = put_job db key (with_status row (status row) (result row)).
Proof.
  intros Hrow. unfold put_job, set_jobs.
  replace (with_status row (status row) (result row)) with row
    by (by destruct row).
  rewrite insert_id by exact Hrow. by destruct db.
Qed.

(** The start of the [try] block on a stored job: the row is marked
    running, validated, and the pipeline is run. *)
Lemma try_process_job_executed (env : WorkerEnv) (db : DB)
    (reg reg1 : PluginRegistry) (key : Z) (target : string)
    (row : Models.Job) (job_schema : Schemas.Job)
    (r : PipelineExecutionResult) :
  jobs db !! key = Some row →
  model_validate (with_status row running (result row)) = inr job_schema →
  execute (exec_env env) reg job_schema
    (pipeline_or_default (Models.pipeline_id row))
    (task_context env key target job_schema) = (reg1, inr r) →
  try_process_job env (open_session db) reg key target
  = let pid := pipeline_or_default (Models.pipeline_id row) in
    let s1 := {| store := put_job db key
                            (with_status row running (result row));
                 inactive := false |} in
    match persist_all (create_finding (fault env))
            (per_total_findings r) s1 with
    | (s2, Some e) => (s2, reg1, inl e)
    | (s2, None) =>
      match persist_all (create_artifact (fault env))
              (per_total_artifacts r) s2 with
      | (s3, Some e) => (s3, reg1, inl e)
      | (s3, None) =>
        match persist_all (create_trace_event (fault env))
                (per_total_events r) s3 with
        | (s4, Some e) => (s4, reg1, inl e)
        | (s4, None) =>
          match update_job_status s4 key
                  (if per_success r then completed else failed)
                  (Some (summary pid r)) with
          | (s5, inl e) => (s5, reg1, inl e)
          | (s5, inr _) => (s5, reg1, inr (summary pid r))
          end
        end
      end
    end.
Proof.
  intros Hrow Hvalid Hexec. unfold try_process_job.
  unfold open_session at 1. cbn [store]. rewrite Hrow.
  rewrite (update_job_status_active (open_session db) key row running None)
    by done.
  cbn [from_option]. unfold Datatypes.id. rewrite Hvalid. cbn zeta.
  by rewrite Hexec.
Qed.

(** X11: with a store that rejects no row, what the task persists is
    what the executor returned: the findings, the artifacts and the
    trace events of the result are appended to their tables, in the
    order of the result, the job row gets the summary as its result and
    the status completed or failed after the result's success flag, no
    event row is written, and the summary is returned. *)
Theorem healthy_store_persists_result_in_order (env : WorkerEnv) (db : DB)
    (reg reg1 : PluginRegistry) (key : Z) (target : string)
    (row : Models.Job) (job_schema : Schemas.Job)
    (r : PipelineExecutionResult) :
  license_ok env = true →
  (∀ w, fault env w = None) →
  jobs db !! key = Some row →
  model_validate (with_status row running (result row)) = inr job_schema →
  execute (exec_env env) reg job_schema
    (pipeline_or_default (Models.pipeline_id row))
    (task_context env key target job_schema) = (reg1, inr r) →
  process_job env (db, reg) key target
  = (({| jobs :=
           <[key := with_status row
                      (if per_success r then completed else failed)
                      (Some (summary
                               (pipeline_or_default (Models.pipeline_id row))
                               r))]> (jobs db);
         findings := findings db ++ per_total_findings r;
         artifacts := artifacts db ++ per_total_artifacts r;
         trace_events := trace_events db ++ per_total_events r;
         events := events db |}, reg1),
     inr (summary (pipeline_or_default (Models.pipeline_id row)) r)).
Proof.
  intros Hlicense Hok Hrow Hvalid Hexec.
  unfold process_job. rewrite Hlicense. cbn [negb fst snd].
  rewrite (try_process_job_executed env db reg reg1 key target row
             job_schema r) by done.
  cbn zeta.
  rewrite persist_all_findings_no_fault by done.
  rewrite persist_all_artifacts_no_fault by done.
  rewrite persist_all_events_no_fault by done.
  cbn [store jobs put_job set_jobs findings artifacts trace_events events].
  erewrite update_job_status_active;
    [|reflexivity|cbn; apply lookup_insert_eq].
  cbn. unfold put_job, set_jobs. cbn. by rewrite insert_insert_eq.
Qed.

Lemma healthy_store_persists_result_in_order_witness :
  ∃ reg1 r,
    execute env0 reg_findings job0 "quicklook" ctx0 = (reg1, inr r)
    ∧ process_job wenv0 (db_pending, reg_findings) 1 "/samples/a.bin"
      = (({| jobs :=
               <[1%Z := with_status (job_row pending None)
                          (if per_success r then completed else failed)
                          (Some (summary "quicklook" r))]> (jobs db_pending);
             findings := findings db_pending ++ per_total_findings r;
             artifacts := artifacts db_pending ++ per_total_artifacts r;
             trace_events := trace_events db_pending ++ per_total_events r;
             events := events db_pending |}, reg1),
         inr (summary "quicklook" r)).
Proof.
  assert (H : match (execute env0 reg_findings job0 "quicklook" ctx0).2 with
              | inr _ => true
              | inl _ => false
              end = true) by (vm_compute; reflexivity).
  destruct (execute env0 reg_findings job0 "quicklook" ctx0)
    as [reg1 [e|r]] eqn:Hexec; [discriminate|].
  exists reg1, r. split; [reflexivity|].
  apply (healthy_store_persists_result_in_order wenv0 db_pending reg_findings
           reg1 1 "/samples/a.bin" (job_row pending None) job0 r).
  - reflexivity.
  - intros w. reflexivity.
  - reflexivity.
  - reflexivity.
  - exact Hexec.
Defined.

(** X12: when the store rejects one of the result's findings, the task
    writes the findings before it and nothing after it: no later
    finding, no artifact, no trace event.  The session is inactive from
    then on, so the [except] clause cannot mark the job failed nor
    record the job_failed event: the job row is left running with the
    result it had, and PendingRollbackError leaves the task. *)
Theorem rejected_finding_leaves_job_running (env : WorkerEnv) (db : DB)
    (reg reg1 : PluginRegistry) (key : Z) (target : string)
    (row : Models.Job) (job_schema : Schemas.Job)
    (r : PipelineExecutionResult) (before after : list Finding)
    (f : Finding) (e : exn) :
  license_ok env = true →
  jobs db !! key = Some row →
  model_validate (with_status row running (result row)) = inr job_schema →
  execute (exec_env env) reg job_schema
    (pipeline_or_default (Models.pipeline_id row))
    (task_context env key target job_schema) = (reg1, inr r) →
  per_total_findings r = before ++ f :: after →
  (∀ f0, f0 ∈ before → fault env (WFinding f0) = None) →
  fault env (WFinding f) = Some e →
  ∃ raised,
    exn_class raised = PendingRollbackError
    ∧ process_job env (db, reg) key target
      = (({| jobs :=
               <[key := with_status row running (result row)]> (jobs db);
             findings := findings db ++ before;
             artifacts := artifacts db;
             trace_events := trace_events db;
             events := events db |}, reg1),
         inl raised).
Proof.
  intros Hlicense Hrow Hvalid Hexec Hsplit Hbefore Hf.
  exists pending_rollback. split; [reflexivity|].
  unfold process_job. rewrite Hlicense. cbn [negb fst snd].
  rewrite (try_process_job_executed env db reg reg1 key target row
             job_schema r) by done.
  cbn zeta. rewrite Hsplit.
  rewrite (persist_all_stops_at_fault (fault env) before after f _ e) by done.
  reflexivity.
Qed.

Lemma rejected_finding_leaves_job_running_witness :
  ∃ reg1 r after,
    execute env0 reg_findings job0 "quicklook" ctx0 = (reg1, inr r)
    ∧ per_total_findings r
      = annotate_finding gate_stage (finding_titled "first") :: after
    ∧ ∃ raised,
        exn_class raised = PendingRollbackError
        ∧ process_job wenv_faulty (db_pending, reg_findings) 1
            "/samples/a.bin"
          = (({| jobs :=
                   <[1%Z := with_status (job_row pending None) running None]>
                     (jobs db_pending);
                 findings := findings db_pending ++ [];
                 artifacts := artifacts db_pending;
                 trace_events := trace_events db_pending;
                 events := events db_pending |}, reg1),
             inl raised).
Proof.
  assert (H :
    match (execute env0 reg_findings job0 "quicklook" ctx0).2 with
    | inr r => head (per_total_findings r)
    | inl _ => None
    end = Some (annotate_finding gate_stage (finding_titled "first")))
    by (vm_compute; reflexivity).
  destruct (execute env0 reg_findings job0 "quicklook" ctx0)
    as [reg1 [e|r]] eqn:Hexec; [discriminate|].
  cbn [snd] in H.
  destruct (per_total_findings r) as [|f after] eqn:Hfindings;
    [discriminate|].
  injection H as ->.
  exists reg1, r, after. split; [reflexivity|]. split; [exact Hfindings|].
  apply (rejected_finding_leaves_job_running wenv_faulty db_pending
           reg_findings reg1 1 "/samples/a.bin" (job_row pending None) job0 r
           [] after (annotate_finding gate_stage (finding_titled "first"))
           (Exn StoreError "write failed")).
  - reflexivity.
  - reflexivity.
  - reflexivity.
  - exact Hexec.
  - exact Hfindings.
  - intros f0 Hin. apply elem_of_nil in Hin. destruct Hin.
  - reflexivity.
Defined.

(** X13: with a store that rejects no row, the task never leaves a
    stored job pending or running: the row ends completed or failed,
    with the returned summary as its result when the task returns, and
    failed, with the text of the exception in its result, when the task
    raises. *)
Theorem job_finalised_when_store_accepts (env : WorkerEnv) (db db1 : DB)
    (reg reg1 : PluginRegistry) (key : Z) (target : string)
    (row : Models.Job) (out : Exc dict) :
  license_ok env = true →
  (∀ w, fault env w = None) →
  jobs db !! key = Some row →
  process_job env (db, reg) key target = ((db1, reg1), out) →
  ∃ st payload,
    (st = completed ∨ st = failed)
    ∧ jobs db1 !! key = Some (with_status row st (Some payload))
    ∧ match out with
      | inr final => payload = final
      | inl e => st = failed ∧ payload !! "error" = Some (VStr (exn_str e))
      end.
Proof.
  intros Hlicense Hok Hrow. rewrite (put_job_stored db key row Hrow) at 1.
  unfold process_job. rewrite Hlicense. cbn [negb fst snd].
  destruct (try_process_job_put env db reg key row target)
    as [(db2 & reg2 & e & b & Hb & Htry)
       |(db2 & reg2 & st & final & Hst & Htry)];
    rewrite Htry.
  - destruct b.
    { destruct (Hb eq_refl) as [w [x Hw]]. rewrite Hok in Hw. discriminate. }
    unfold except_clause. rewrite update_job_status_put. cbn.
    intros [= <- <- <-]. eexists failed, _. split; [by right|].
    split; [apply lookup_insert_eq|]. split; [reflexivity|].
    apply lookup_insert_eq.
  - intros [= <- <- <-]. exists st, final. split; [exact Hst|].
    split; [apply lookup_insert_eq|reflexivity].
Qed.

Lemma job_finalised_when_store_accepts_witness :
  ∃ db1 reg1 out st payload,
    process_job wenv0 (db_completed, reg_findings) 1 "/samples/a.bin"
    = ((db1, reg1), out)
    ∧ (st = completed ∨ st = failed)
    ∧ jobs db1 !! 1%Z
      = Some (with_status
                (job_row completed
                   (Some (<["pipeline_id" := VStr "quicklook"]> (
                          <["findings_count" := VInt 0]> ∅))))
                st (Some payload))
    ∧ match out with
      | inr final => payload = final
      | inl e => st = failed ∧ payload !! "error" = Some (VStr (exn_str e))
      end.
Proof.
  destruct (process_job wenv0 (db_completed, reg_findings) 1 "/samples/a.bin")
    as [[db1 reg1] out] eqn:Hrun.
  exists db1, reg1, out.
  destruct (job_finalised_when_store_accepts wenv0 db_completed db1
              reg_findings reg1 1 "/samples/a.bin"
              (job_row completed
                 (Some (<["pipeline_id" := VStr "quicklook"]> (
                        <["findings_count" := VInt 0]> ∅))))
              out eq_refl (λ w, eq_refl) eq_refl Hrun)
    as (st & payload & H).
  exists st, payload. split; [reflexivity|exact H].
Defined.

End Worker.


(** ** The executor: what every run keeps *)

(** Every way through one iteration of the loop, with the locals it
    leaves written out. *)
Ltac step_cases :=
  unfold stage_step, execute_stage, try_stage, handle_failure, skip_stage;
  repeat case_match; simplify_eq; cbn.

Section Runs.
Import Fixtures.

Variable env : ExecEnv.
Variable job : Job.
Variable pipeline_id : string.
Variable base_ctx : JobContext.
Variable start_time : Z.

Local Abbreviation step := (stage_step env job pipeline_id base_ctx start_time).
Local Abbreviation run_from :=
  (run_stages env job pipeline_id base_ctx start_time).
Local Abbreviation stepped := (steps env job pipeline_id base_ctx start_time).

(** The loop goes through a prefix of the stages, one iteration each. *)
Lemma run_stages_steps (stages : list PipelineStage) (st : LoopState) :
  ∃ done rest,
    stages = done ++ rest ∧ stepped st done (end_state (run_from stages st)).
Proof.
  revert st. induction stages as [|stage stages IH]; intros st; cbn.
  - exists [], []. split; [reflexivity|constructor].
  - destruct (step stage st) as [st1|st1|st1 r|st1 e] eqn:Hstep.
    + destruct (IH st1) as (done & rest & -> & Hsteps).
      exists (stage :: done), rest. split; [reflexivity|].
      econstructor; [|exact Hsteps]. by rewrite Hstep.
    + exists [stage], stages. split; [reflexivity|].
      econstructor; [by rewrite Hstep|constructor].
    + exists [stage], stages. split; [reflexivity|].
      econstructor; [by rewrite Hstep|constructor].
    + exists [stage], stages. split; [reflexivity|].
      econstructor; [by rewrite Hstep|constructor].
Qed.

(** The result of an early return repeats the locals. *)
Lemma handle_failure_result (stage : PipelineStage) (st st1 : LoopState)
    (e : exn) (r : PipelineExecutionResult) :
  handle_failure env job pipeline_id start_time stage st e = Return st1 r →
  per_stages_executed r = stages_executed st1
  ∧ per_stages_skipped r = stages_skipped st1
  ∧ per_stages_failed r = stages_failed st1
  ∧ per_total_findings r = all_findings st1
  ∧ per_total_artifacts r = all_artifacts st1
  ∧ per_total_events r = all_events st1
  ∧ per_risk_score r = max_risk st1
  ∧ per_error r
    = Some ("Stage " +:+ stage_name stage +:+ " failed: " +:+ exn_str e).
Proof.
  unfold handle_failure. destruct (stage_optional stage); [discriminate|].
  cbn [negb]. intros [= <- <-]. repeat split; reflexivity.
Qed.

Lemma stage_step_result (stage : PipelineStage) (st st1 : LoopState)
    (r : PipelineExecutionResult) :
  step stage st = Return st1 r →
  per_stages_executed r = stages_executed st1
  ∧ per_stages_skipped r = stages_skipped st1
  ∧ per_stages_failed r = stages_failed st1
  ∧ per_total_findings r = all_findings st1
  ∧ per_total_artifacts r = all_artifacts st1
  ∧ per_total_events r = all_events st1
  ∧ per_risk_score r = max_risk st1
  ∧ ∃ e, per_error r
         = Some ("Stage " +:+ stage_name stage +:+ " failed: " +:+ exn_str e).
Proof.
  unfold stage_step, execute_stage.
  destruct (_should_execute_stage env stage (last_result st)
              (running_context st)) as [e|[|]]; try discriminate.
  destruct (try_stage env job base_ctx stage st) as [st2 [e|result]].
  - intros H. apply handle_failure_result in H.
    destruct H as (? & ? & ? & ? & ? & ? & ? & ?). repeat split; eauto.
  - destruct (pr_skip_remaining result); discriminate.
Qed.

Lemma run_stages_result (stages : list PipelineStage) (st st1 : LoopState)
    (r : PipelineExecutionResult) :
  run_from stages st = Returned st1 r →
  per_stages_executed r = stages_executed st1
  ∧ per_stages_skipped r = stages_skipped st1
  ∧ per_stages_failed r = stages_failed st1
  ∧ per_total_findings r = all_findings st1
  ∧ per_total_artifacts r = all_artifacts st1
  ∧ per_total_events r = all_events st1
  ∧ per_risk_score r = max_risk st1.
Proof.
  revert st. induction stages as [|stage stages IH]; intros st; cbn.
  - discriminate.
  - destruct (step stage st) as [st2|st2|st2 r2|st2 e] eqn:Hstep;
      try discriminate.
    + apply IH.
    + intros [= <- <-]. apply stage_step_result in Hstep.
      destruct Hstep as (? & ? & ? & ? & ? & ? & ? & _). by repeat split.
Qed.

(** One iteration records the stage once, unless the completion callback
    raises (the stage is then recorded as executed and as failed) or the
    condition raises (nothing is recorded). *)
Lemma step_recorded_le (stage : PipelineStage) (st : LoopState) :
  (∀ name result, stage_callback env name result = None) →
  (recorded (flow_state (step stage st)) ≤ recorded st + 1)%nat.
Proof.
  intros Hcb. unfold recorded. step_cases;
    rewrite ?length_app; cbn; try lia.
  all: match goal with
       | H : stage_callback _ _ _ = Some _ |- _ =>
           rewrite Hcb in H; discriminate
       end.
Qed.

Lemma step_continue_recorded (stage : PipelineStage) (st st1 : LoopState) :
  (∀ name result, stage_callback env name result = None) →
  step stage st = Continue st1 →
  recorded st1 = (recorded st + 1)%nat.
Proof.
  intros Hcb. unfold recorded. step_cases; intros; simplify_eq; cbn;
    rewrite ?length_app; cbn; try lia.
  all: match goal with
       | H : stage_callback _ _ _ = Some _ |- _ =>
           rewrite Hcb in H; discriminate
       end.
Qed.

Lemma step_break_skips (stage : PipelineStage) (st st1 : LoopState) :
  step stage st = Break st1 →
  ∃ result, last_result st1 = Some result ∧ pr_skip_remaining result = true.
Proof.
  step_cases; intros; simplify_eq; cbn; eexists; split; try reflexivity;
    assumption.
Qed.

Lemma steps_recorded_le (st st1 : LoopState) (l : list PipelineStage) :
  (∀ name result, stage_callback env name result = None) →
  stepped st l st1 →
  (recorded st1 ≤ recorded st + length l)%nat.
Proof.
  intros Hcb Hsteps. induction Hsteps as [st|st st1 st2 stage l Hstep _ IH].
  - lia.
  - pose proof (step_recorded_le stage st Hcb) as Hle. rewrite Hstep in Hle.
    cbn. lia.
Qed.

Lemma run_stages_finished_recorded (stages : list PipelineStage)
    (st st1 : LoopState) :
  (∀ name result, stage_callback env name result = None) →
  run_from stages st = Finished st1 →
  recorded st1 = (recorded st + length stages)%nat
  ∨ ∃ result, last_result st1 = Some result
              ∧ pr_skip_remaining result = true.
Proof.
  intros Hcb. revert st. induction stages as [|stage stages IH]; intros st; cbn.
  - intros [= <-]. left. lia.
  - destruct (step stage st) as [st2|st2|st2 r2|st2 e] eqn:Hstep;
      try discriminate.
    + intros Hrun. destruct (IH _ Hrun) as [Heq|Hskip]; [left|by right].
      rewrite Heq, (step_continue_recorded _ _ _ Hcb Hstep). lia.
    + intros [= <-]. right. by eapply step_break_skips.
Qed.

(** What one iteration does to the lists of names and to the
    aggregated findings and artifacts: a stage name is appended or the
    list is left alone, and findings and artifacts are only ever added
    together with the name of the stage in [stages_executed], stamped
    with that stage. *)
Lemma step_effect (stage : PipelineStage) (st : LoopState) :
  let st1 := flow_state (step stage st) in
  (stages_executed st1 = stages_executed st
   ∧ all_findings st1 = all_findings st
   ∧ all_artifacts st1 = all_artifacts st
   ∨ ∃ returned,
       stages_executed st1 = stages_executed st ++ [stage_name stage]
       ∧ all_findings st1
         = all_findings st ++ (annotate_finding stage <$> pr_findings returned)
       ∧ all_artifacts st1
         = all_artifacts st
           ++ (annotate_artifact stage <$> pr_artifacts returned))
  ∧ (stages_skipped st1 = stages_skipped st
     ∨ stages_skipped st1 = stages_skipped st ++ [stage_name stage])
  ∧ (stages_failed st1 = stages_failed st
     ∨ stages_failed st1 = stages_failed st ++ [stage_name stage]).
Proof.
  cbn zeta. step_cases.
  all: split; [|split];
    first [ left; repeat split; reflexivity
          | right; first [ reflexivity
                         | eexists; repeat split; reflexivity ] ].
Qed.

(** One iteration only appends to the events, and at least one event
    for each name it adds to [stages_executed] or [stages_failed]. *)
Lemma step_events (stage : PipelineStage) (st : LoopState) :
  let st1 := flow_state (step stage st) in
  all_events st `prefix_of` all_events st1
  ∧ (length (all_events st) + length (stages_executed st1)
     + length (stages_failed st1)
     ≤ length (all_events st1) + length (stages_executed st)
       + length (stages_failed st))%nat.
Proof.
  cbn zeta. step_cases.
  all: split;
    [ first [ reflexivity
            | apply prefix_app_r; reflexivity
            | rewrite <- app_assoc; apply prefix_app_r; reflexivity ]
    | rewrite ?length_app; cbn; lia ].
Qed.

(** The running maximum never decreases over an iteration. *)
Lemma step_max_risk (stage : PipelineStage) (st : LoopState) :
  (max_risk st ≤ max_risk (flow_state (step stage st)))%Qc.
Proof.
  unfold stage_step, execute_stage.
  destruct (_should_execute_stage env stage (last_result st)
              (running_context st)) as [e|[|]]; cbn; try apply Qcle_refl.
  destruct (try_stage env job base_ctx stage st) as [st1 out] eqn:Htry.
  apply try_stage_max_risk in Htry.
  destruct out as [e|result].
  - unfold handle_failure. by destruct (stage_optional stage).
  - by destruct (pr_skip_remaining result).
Qed.

Lemma steps_names (proj : LoopState → list string) (st st1 : LoopState)
    (l : list PipelineStage) :
  (∀ stage st0,
     proj (flow_state (step stage st0)) = proj st0
     ∨ proj (flow_state (step stage st0)) = proj st0 ++ [stage_name stage]) →
  stepped st l st1 →
  ∃ names, proj st1 = proj st ++ names
           ∧ names `sublist_of` (stage_name <$> l).
Proof.
  intros Hproj Hsteps.
  induction Hsteps as [st|st st1 st2 stage l Hstep _ IH].
  - exists []. by rewrite app_nil_r.
  - destruct IH as (names & Heq & Hsub).
    destruct (Hproj stage st) as [Hsame|Happ]; rewrite Hstep in *.
    + exists names. split; [by rewrite Heq, Hsame|].
      by apply sublist_cons.
    + exists (stage_name stage :: names).
      split; [by rewrite Heq, Happ, <- app_assoc|].
      by apply sublist_skip.
Qed.

Lemma steps_events (st st1 : LoopState) (l : list PipelineStage) :
  stepped st l st1 →
  all_events st `prefix_of` all_events st1
  ∧ (length (all_events st) + length (stages_executed st1)
     + length (stages_failed st1)
     ≤ length (all_events st1) + length (stages_executed st)
       + length (stages_failed st))%nat.
Proof.
  intros Hsteps. induction Hsteps as [st|st st1 st2 stage l Hstep _ IH].
  - split; [reflexivity|lia].
  - destruct (step_events stage st) as [Hp Hl]. rewrite Hstep in Hp, Hl.
    destruct IH as [Hp2 Hl2]. split; [by etrans|lia].
Qed.

Lemma steps_max_risk (st st1 : LoopState) (l : list PipelineStage) :
  stepped st l st1 → (max_risk st ≤ max_risk st1)%Qc.
Proof.
  intros Hsteps. induction Hsteps as [st|st st1 st2 stage l Hstep _ IH].
  - apply Qcle_refl.
  - pose proof (step_max_risk stage st) as Hle. rewrite Hstep in Hle.
    by eapply Qcle_trans.
Qed.

Lemma stamped_by_more (stages : list PipelineStage)
    (executed more : list string) (p s : option string) :
  stamped_by stages executed p s → stamped_by stages (executed ++ more) p s.
Proof.
  intros (stage & Hin & Hp & Hs & Hex). exists stage.
  repeat split; try assumption. apply elem_of_app. by left.
Qed.

(** Every aggregated finding and artifact carries the stamp of a stage
    recorded as executed: one iteration keeps it so. *)
Lemma step_stamped (stages : list PipelineStage) (stage : PipelineStage)
    (st : LoopState) :
  stage ∈ stages →
  Forall (λ f, stamped_by stages (stages_executed st)
                 (f_plugin_id f) (f_stage f)) (all_findings st)
  ∧ Forall (λ a, stamped_by stages (stages_executed st)
                   (a_plugin_id a) (a_stage a)) (all_artifacts st) →
  let st1 := flow_state (step stage st) in
  Forall (λ f, stamped_by stages (stages_executed st1)
                 (f_plugin_id f) (f_stage f)) (all_findings st1)
  ∧ Forall (λ a, stamped_by stages (stages_executed st1)
                   (a_plugin_id a) (a_stage a)) (all_artifacts st1).
Proof.
  intros Hin [Hf Ha]. cbn zeta.
  destruct (step_effect stage st)
    as ([(-> & -> & ->)|(returned & -> & -> & ->)] & _).
  - by split.
  - assert (Hnew : stamped_by stages (stages_executed st ++ [stage_name stage])
                     (Some (stage_plugin_id stage)) (Some (stage_name stage))).
    { exists stage. repeat split; [exact Hin|].
      apply elem_of_app. right. apply elem_of_cons. by left. }
    split; apply Forall_app; split.
    + eapply Forall_impl; [|exact Hf]. intros f. apply stamped_by_more.
    + apply Forall_fmap, Forall_true. intros f. exact Hnew.
    + eapply Forall_impl; [|exact Ha]. intros a. apply stamped_by_more.
    + apply Forall_fmap, Forall_true. intros a. exact Hnew.
Qed.

Lemma steps_stamped (stages l : list PipelineStage) (st st1 : LoopState) :
  (∀ stage, stage ∈ l → stage ∈ stages) →
  stepped st l st1 →
  Forall (λ f, stamped_by stages (stages_executed st)
                 (f_plugin_id f) (f_stage f)) (all_findings st)
  ∧ Forall (λ a, stamped_by stages (stages_executed st)
                   (a_plugin_id a) (a_stage a)) (all_artifacts st) →
  Forall (λ f, stamped_by stages (stages_executed st1)
                 (f_plugin_id f) (f_stage f)) (all_findings st1)
  ∧ Forall (λ a, stamped_by stages (stages_executed st1)
                   (a_plugin_id a) (a_stage a)) (all_artifacts st1).
Proof.
  intros Hl Hsteps. induction Hsteps as [st|st st1 st2 stage l Hstep _ IH].
  - done.
  - intros Hinv. apply IH.
    + intros s Hs. apply Hl, elem_of_cons. by right.
    + rewrite <- Hstep. apply step_stamped; [|exact Hinv].
      apply Hl, elem_of_cons. by left.
Qed.

Lemma run_stages_returned_error (stages : list PipelineStage)
    (st st1 : LoopState) (r : PipelineExecutionResult) :
  run_from stages st = Returned st1 r →
  ∃ stage e failed,
    stage ∈ stages ∧ stage_optional stage = false
    ∧ per_success r = false
    ∧ per_stages_failed r = failed ++ [stage_name stage]
    ∧ per_error r
      = Some ("Stage " +:+ stage_name stage +:+ " failed: " +:+ exn_str e).
Proof.
  revert st. induction stages as [|stage stages IH]; intros st; cbn.
  - discriminate.
  - destruct (step stage st) as [st2|st2|st2 r2|st2 e] eqn:Hstep;
      try discriminate.
    + intros H. apply IH in H as (s & e & failed & Hin & Hrest).
      exists s, e, failed. split; [apply elem_of_cons; by right|exact Hrest].
    + intros [= <- <-]. pose proof Hstep as Hret.
      apply stage_step_return in Hret as (Hopt & Hs & failed & Hf).
      apply stage_step_result in Hstep
        as (_ & _ & _ & _ & _ & _ & _ & e & Herr).
      exists stage, e, failed.
      split; [apply elem_of_cons; by left|]. by repeat split.
Qed.

End Runs.

(** ** The executor: properties of every result *)

Section RunResults.
Import Fixtures.

(** A result of [execute] repeats the locals the loop ended with, and the
    loop went through a prefix of the pipeline's stages. *)
Lemma execute_end (env : ExecEnv) (reg reg1 : PluginRegistry) (job : Job)
    (pipeline_id : string) (base_ctx : JobContext)
    (r : PipelineExecutionResult) :
  execute env reg job pipeline_id base_ctx = (reg1, inr r) →
  ∃ pipeline done rest st1,
    PIPELINES env !! pipeline_id = Some pipeline
    ∧ pl_stages pipeline = done ++ rest
    ∧ steps env job pipeline_id base_ctx (clock env 0)
        (initial_state env reg job pipeline_id pipeline) done st1
    ∧ per_stages_executed r = stages_executed st1
    ∧ per_stages_skipped r = stages_skipped st1
    ∧ per_stages_failed r = stages_failed st1
    ∧ per_total_findings r = all_findings st1
    ∧ per_total_artifacts r = all_artifacts st1
    ∧ per_total_events r = all_events st1
    ∧ per_risk_score r = max_risk st1
    ∧ (per_error r = None →
       execute_loop env reg job pipeline_id base_ctx = Some (Finished st1)).
Proof.
  unfold execute, execute_loop.
  destruct (PIPELINES env !! pipeline_id) as [pipeline|]; [|discriminate].
  destruct (run_stages_steps env job pipeline_id base_ctx (clock env 0)
              (pl_stages pipeline)
              (initial_state env reg job pipeline_id pipeline))
    as (done & rest & Hsplit & Hsteps).
  destruct (run_stages env job pipeline_id base_ctx (clock env 0)
              (pl_stages pipeline)
              (initial_state env reg job pipeline_id pipeline))
    as [st|st r1|st e] eqn:Hrun; [| |discriminate].
  - intros [= <- <-]. exists pipeline, done, rest, st. by repeat split.
  - intros [= <- <-]. exists pipeline, done, rest, st.
    pose proof Hrun as Hres. apply run_stages_result in Hres.
    destruct Hres as (? & ? & ? & ? & ? & ? & ?).
    apply run_stages_returned_error in Hrun
      as (stage & e & failed & _ & _ & _ & _ & Herr).
    repeat split; try assumption.
    rewrite Herr. discriminate.
Qed.

(** X1: when the completion callback does not raise (the worker's
    executor has none), every stage is recorded at most once: the three
    lists of a result together hold no more names than the pipeline has
    stages. *)
Theorem stages_recorded_at_most_once (env : ExecEnv)
    (reg reg1 : PluginRegistry) (job : Job) (pipeline_id : string)
    (base_ctx : JobContext) (pipeline : Pipeline)
    (r : PipelineExecutionResult) :
  (∀ name result, stage_callback env name result = None) →
  PIPELINES env !! pipeline_id = Some pipeline →
  execute env reg job pipeline_id base_ctx = (reg1, inr r) →
  (length (per_stages_executed r) + length (per_stages_skipped r)
   + length (per_stages_failed r) ≤ length (pl_stages pipeline))%nat.
Proof.
  intros Hcb Hpipe Hexec.
  destruct (execute_end _ _ _ _ _ _ _ Hexec)
    as (p & done & rest & st1 & Hp & Hsplit & Hsteps
        & -> & -> & -> & _).
  rewrite Hpipe in Hp. injection Hp as <-.
  apply (steps_recorded_le _ _ _ _ _ _ _ _ Hcb) in Hsteps.
  unfold recorded in Hsteps. cbn in Hsteps.
  rewrite Hsplit, length_app. lia.
Qed.

Lemma stages_recorded_at_most_once_witness :
  ∃ r, (execute env0 reg_static_raises job0 "quicklook" ctx0).2 = inr r
       ∧ (length (per_stages_executed r) + length (per_stages_skipped r)
          + length (per_stages_failed r) ≤ length (pl_stages quicklook))%nat.
Proof.
  destruct (execute env0 reg_static_raises job0 "quicklook" ctx0)
    as [reg1 [e|r]] eqn:Hrun; [vm_compute in Hrun; discriminate|].
  exists r. split; [reflexivity|].
  apply (stages_recorded_at_most_once env0 reg_static_raises reg1 job0
           "quicklook" ctx0 quicklook r);
    [reflexivity | reflexivity | exact Hrun].
Defined.

(** X2: a run that reaches the end of the loop without a stage asking to
    skip the rest has recorded every stage of the pipeline exactly once. *)
Theorem finished_run_records_every_stage (env : ExecEnv)
    (reg : PluginRegistry) (job : Job) (pipeline_id : string)
    (base_ctx : JobContext) (pipeline : Pipeline) (st1 : LoopState) :
  (∀ name result, stage_callback env name result = None) →
  PIPELINES env !! pipeline_id = Some pipeline →
  execute_loop env reg job pipeline_id base_ctx = Some (Finished st1) →
  (∀ result, last_result st1 = Some result →
             pr_skip_remaining result = false) →
  (length (stages_executed st1) + length (stages_skipped st1)
   + length (stages_failed st1) = length (pl_stages pipeline))%nat.
Proof.
  intros Hcb Hpipe. unfold execute_loop. rewrite Hpipe.
  intros [= Hrun] Hnoskip.
  destruct (run_stages_finished_recorded _ _ _ _ _ _ _ _ Hcb Hrun)
    as [Heq|(result & Hlast & Hskip)].
  - exact Heq.
  - rewrite (Hnoskip _ Hlast) in Hskip. discriminate.
Qed.

Lemma finished_run_records_every_stage_witness :
  ∃ st1,
    execute_loop env0 reg_static_raises job0 "quicklook" ctx0
    = Some (Finished st1)
    ∧ (length (stages_executed st1) + length (stages_skipped st1)
       + length (stages_failed st1) = length (pl_stages quicklook))%nat.
Proof.
  destruct (execute_loop env0 reg_static_raises job0 "quicklook" ctx0)
    as [[st1|st1 r|st1 e]|] eqn:Hrun;
    try (vm_compute in Hrun; discriminate).
  exists st1. split; [reflexivity|].
  apply (finished_run_records_every_stage env0 reg_static_raises job0
           "quicklook" ctx0 quicklook st1);
    [reflexivity | reflexivity | exact Hrun |].
  intros result Hlast. vm_compute in Hrun. injection Hrun as <-.
  cbn in Hlast. injection Hlast as <-. reflexivity.
Defined.

(** X3: the three lists of a result follow the order of the pipeline:
    each is a subsequence of the pipeline's stage names. *)
Theorem stage_lists_follow_pipeline_order (env : ExecEnv)
    (reg reg1 : PluginRegistry) (job : Job) (pipeline_id : string)
    (base_ctx : JobContext) (pipeline : Pipeline)
    (r : PipelineExecutionResult) :
  PIPELINES env !! pipeline_id = Some pipeline →
  execute env reg job pipeline_id base_ctx = (reg1, inr r) →
  per_stages_executed r `sublist_of` (stage_name <$> pl_stages pipeline)
  ∧ per_stages_skipped r `sublist_of` (stage_name <$> pl_stages pipeline)
  ∧ per_stages_failed r `sublist_of` (stage_name <$> pl_stages pipeline).
Proof.
  intros Hpipe Hexec.
  destruct (execute_end _ _ _ _ _ _ _ Hexec)
    as (p & done & rest & st1 & Hp & Hsplit & Hsteps
        & -> & -> & -> & _).
  rewrite Hpipe in Hp. injection Hp as <-.
  assert (Hdone : (stage_name <$> done)
                  `sublist_of` (stage_name <$> pl_stages pipeline)).
  { rewrite Hsplit, fmap_app. by apply sublist_inserts_r. }
  repeat split.
  - destruct (steps_names _ _ _ _ _ stages_executed _ _ _
                (λ stage st0, match step_effect _ _ _ _ _ stage st0 with
                              | conj (or_introl (conj H _)) _ => or_introl H
                              | conj (or_intror (ex_intro _ _ (conj H _))) _ =>
                                  or_intror H
                              end) Hsteps) as (names & -> & Hsub).
    cbn. by etrans.
  - destruct (steps_names _ _ _ _ _ stages_skipped _ _ _
                (λ stage st0, proj1 (proj2 (step_effect _ _ _ _ _ stage st0)))
                Hsteps) as (names & -> & Hsub).
    cbn. by etrans.
  - destruct (steps_names _ _ _ _ _ stages_failed _ _ _
                (λ stage st0, proj2 (proj2 (step_effect _ _ _ _ _ stage st0)))
                Hsteps) as (names & -> & Hsub).
    cbn. by etrans.
Qed.

Lemma stage_lists_follow_pipeline_order_witness :
  ∃ r, (execute env0 reg_static_raises job0 "quicklook" ctx0).2 = inr r
       ∧ per_stages_executed r `sublist_of` (stage_name <$> pl_stages quicklook)
       ∧ per_stages_skipped r `sublist_of` (stage_name <$> pl_stages quicklook)
       ∧ per_stages_failed r `sublist_of` (stage_name <$> pl_stages quicklook).
Proof.
  destruct (execute env0 reg_static_raises job0 "quicklook" ctx0)
    as [reg1 [e|r]] eqn:Hrun; [vm_compute in Hrun; discriminate|].
  exists r. split; [reflexivity|].
  apply (stage_lists_follow_pipeline_order env0 reg_static_raises reg1 job0
           "quicklook" ctx0 quicklook r); [reflexivity | exact Hrun].
Defined.

(** X4: every finding and every artifact of a result is stamped with the
    plugin id and the name of a stage of the pipeline, and that stage is
    in the result's [stages_executed]. *)
Theorem results_carry_executed_stage (env : ExecEnv)
    (reg reg1 : PluginRegistry) (job : Job) (pipeline_id : string)
    (base_ctx : JobContext) (pipeline : Pipeline)
    (r : PipelineExecutionResult) :
  PIPELINES env !! pipeline_id = Some pipeline →
  execute env reg job pipeline_id base_ctx = (reg1, inr r) →
  Forall (λ f, stamped_by (pl_stages pipeline) (per_stages_executed r)
                 (f_plugin_id f) (f_stage f)) (per_total_findings r)
  ∧ Forall (λ a, stamped_by (pl_stages pipeline) (per_stages_executed r)
                   (a_plugin_id a) (a_stage a)) (per_total_artifacts r).
Proof.
  intros Hpipe Hexec.
  destruct (execute_end _ _ _ _ _ _ _ Hexec)
    as (p & done & rest & st1 & Hp & Hsplit & Hsteps
        & -> & _ & _ & -> & -> & _).
  rewrite Hpipe in Hp. injection Hp as <-.
  eapply steps_stamped; [|exact Hsteps|].
  - intros stage Hin. rewrite Hsplit. apply elem_of_app. by left.
  - split; constructor.
Qed.

Lemma results_carry_executed_stage_witness :
  ∃ r, (execute env0 reg_findings job0 "quicklook" ctx0).2 = inr r
       ∧ length (per_total_findings r) = 2%nat
       ∧ Forall (λ f, stamped_by (pl_stages quicklook) (per_stages_executed r)
                        (f_plugin_id f) (f_stage f)) (per_total_findings r)
       ∧ Forall (λ a, stamped_by (pl_stages quicklook) (per_stages_executed r)
                        (a_plugin_id a) (a_stage a)) (per_total_artifacts r).
Proof.
  destruct (execute env0 reg_findings job0 "quicklook" ctx0)
    as [reg1 [e|r]] eqn:Hrun; [vm_compute in Hrun; discriminate|].
  exists r. split; [reflexivity|]. split.
  - vm_compute in Hrun. by injection Hrun as <- <-.
  - apply (results_carry_executed_stage env0 reg_findings reg1 job0
             "quicklook" ctx0 quicklook r); [reflexivity | exact Hrun].
Defined.

(** X5: the events of a result begin with the pipeline start event, and
    there is at least one further event for each name in
    [stages_executed] and in [stages_failed]. *)
Theorem events_begin_with_pipeline_start (env : ExecEnv)
    (reg reg1 : PluginRegistry) (job : Job) (pipeline_id : string)
    (base_ctx : JobContext) (pipeline : Pipeline)
    (r : PipelineExecutionResult) :
  PIPELINES env !! pipeline_id = Some pipeline →
  execute env reg job pipeline_id base_ctx = (reg1, inr r) →
  (∃ rest,
     per_total_events r
     = mk_TraceEvent (job_id job) (clock env 1) src_orchestrator stage_start
         (<["pipeline" := VStr pipeline_id]> (
          <["stages" := VList (stage_names pipeline)]> ∅)) :: rest)
  ∧ (1 + length (per_stages_executed r) + length (per_stages_failed r)
     ≤ length (per_total_events r))%nat.
Proof.
  intros Hpipe Hexec.
  destruct (execute_end _ _ _ _ _ _ _ Hexec)
    as (p & done & rest & st1 & Hp & Hsplit & Hsteps
        & -> & _ & -> & _ & _ & -> & _).
  rewrite Hpipe in Hp. injection Hp as <-.
  apply steps_events in Hsteps as [[evs Hevs] Hlen]. cbn in Hevs, Hlen.
  split; [by exists evs|]. lia.
Qed.

Lemma events_begin_with_pipeline_start_witness :
  ∃ r, (execute env0 reg_static_raises job0 "quicklook" ctx0).2 = inr r
       ∧ (∃ rest,
            per_total_events r
            = mk_TraceEvent (job_id job0) (clock env0 1) src_orchestrator
                stage_start
                (<["pipeline" := VStr "quicklook"]> (
                 <["stages" := VList (stage_names quicklook)]> ∅)) :: rest)
       ∧ (1 + length (per_stages_executed r) + length (per_stages_failed r)
          ≤ length (per_total_events r))%nat.
Proof.
  destruct (execute env0 reg_static_raises job0 "quicklook" ctx0)
    as [reg1 [e|r]] eqn:Hrun; [vm_compute in Hrun; discriminate|].
  exists r. split; [reflexivity|].
  apply (events_begin_with_pipeline_start env0 reg_static_raises reg1 job0
           "quicklook" ctx0 quicklook r); [reflexivity | exact Hrun].
Defined.

(** X6: a result carries an error exactly when the run halted on the
    failure of a stage that is not optional: the error names that stage,
    which is the last of [stages_failed], and the success flag is false.
    A result without an error comes from the end of the loop. *)
Theorem error_names_the_halting_stage (env : ExecEnv)
    (reg reg1 : PluginRegistry) (job : Job) (pipeline_id : string)
    (base_ctx : JobContext) (pipeline : Pipeline)
    (r : PipelineExecutionResult) :
  PIPELINES env !! pipeline_id = Some pipeline →
  execute env reg job pipeline_id base_ctx = (reg1, inr r) →
  match per_error r with
  | Some message =>
      per_success r = false
      ∧ ∃ stage,
          stage ∈ pl_stages pipeline ∧ stage_optional stage = false
          ∧ list.last (per_stages_failed r) = Some (stage_name stage)
          ∧ ∃ e, message
                 = "Stage " +:+ stage_name stage +:+ " failed: " +:+ exn_str e
  | None =>
      ∃ st1, execute_loop env reg job pipeline_id base_ctx
             = Some (Finished st1)
  end.
Proof.
  intros Hpipe. unfold execute, execute_loop. rewrite Hpipe.
  destruct (run_stages env job pipeline_id base_ctx (clock env 0)
              (pl_stages pipeline)
              (initial_state env reg job pipeline_id pipeline))
    as [st|st r1|st e] eqn:Hrun; [| |discriminate].
  - intros [= <- <-]. cbn. by exists st.
  - intros [= <- <-].
    apply run_stages_returned_error in Hrun
      as (stage & e & failed & Hin & Hopt & Hs & Hf & ->).
    split; [exact Hs|]. exists stage. split; [exact Hin|].
    split; [exact Hopt|]. split; [by rewrite Hf, last_snoc|]. by exists e.
Qed.

Lemma error_names_the_halting_stage_witness :
  ∃ r, (execute env0 reg_gate_raises job0 "quicklook" ctx0).2 = inr r
       ∧ per_error r = Some "Stage gate failed: boom"
       ∧ match per_error r with
         | Some message =>
             per_success r = false
             ∧ ∃ stage,
                 stage ∈ pl_stages quicklook ∧ stage_optional stage = false
                 ∧ list.last (per_stages_failed r) = Some (stage_name stage)
                 ∧ ∃ e, message
                        = "Stage " +:+ stage_name stage +:+ " failed: "
                          +:+ exn_str e
         | None =>
             ∃ st1, execute_loop env0 reg_gate_raises job0 "quicklook" ctx0
                    = Some (Finished st1)
         end.
Proof.
  destruct (execute env0 reg_gate_raises job0 "quicklook" ctx0)
    as [reg1 [e|r]] eqn:Hrun; [vm_compute in Hrun; discriminate|].
  exists r. split; [reflexivity|]. split.
  - vm_compute in Hrun. by injection Hrun as <- <-.
  - apply (error_names_the_halting_stage env0 reg_gate_raises reg1 job0
             "quicklook" ctx0 quicklook r); [reflexivity | exact Hrun].
Defined.

End RunResults.


(** ** The executor: one stage *)

Section OneStage.
Import Fixtures.

(** X7: a stage whose plugin cannot be obtained, whose [validate]
    rejects, or whose [run] raises contributes nothing: its name goes to
    [stages_failed] only, one [stage_error] event carrying the
    exception's text is recorded, and the findings, the artifacts, the
    pipeline context and the previous result are left as they were.  An
    optional stage lets the loop go on; any other stage ends the run
    with an error result. *)
Theorem failed_stage_contributes_nothing (env : ExecEnv) (job : Job)
    (pipeline_id : string) (base_ctx : JobContext) (start_time : Z)
    (stage : PipelineStage) (st : LoopState) (reg1 : PluginRegistry)
    (e : exn) :
  _should_execute_stage env stage (last_result st) (running_context st)
  = inr true →
  get_instance (registry_env env) (registry st) (stage_plugin_id stage)
    (Some (stage_config stage)) = (reg1, inl e)
  ∨ (∃ plugin,
       get_instance (registry_env env) (registry st) (stage_plugin_id stage)
         (Some (stage_config stage)) = (reg1, inr plugin)
       ∧ (validate plugin (stage_context job base_ctx st) = Some e
          ∨ validate plugin (stage_context job base_ctx st) = None
            ∧ run plugin (stage_context job base_ctx st) = inl e)) →
  ∃ st1,
    flow_state (stage_step env job pipeline_id base_ctx start_time stage st)
    = st1
    ∧ stages_executed st1 = stages_executed st
    ∧ stages_skipped st1 = stages_skipped st
    ∧ stages_failed st1 = stages_failed st ++ [stage_name stage]
    ∧ all_findings st1 = all_findings st
    ∧ all_artifacts st1 = all_artifacts st
    ∧ all_events st1
      = all_events st ++ [stage_error_event env job stage (tick st) e]
    ∧ running_context st1 = running_context st
    ∧ last_result st1 = last_result st
    ∧ (stage_optional stage = true →
       stage_step env job pipeline_id base_ctx start_time stage st
       = Continue st1)
    ∧ (stage_optional stage = false →
       ∃ r, stage_step env job pipeline_id base_ctx start_time stage st
            = Return st1 r
            ∧ per_success r = false
            ∧ per_error r
              = Some ("Stage " +:+ stage_name stage +:+ " failed: "
                      +:+ exn_str e)).
Proof.
  intros Hcond Hraise.
  assert (Htry : ∃ st0,
    try_stage env job base_ctx stage st = (st0, inl e)
    ∧ stages_executed st0 = stages_executed st
    ∧ stages_skipped st0 = stages_skipped st
    ∧ stages_failed st0 = stages_failed st
    ∧ all_findings st0 = all_findings st
    ∧ all_artifacts st0 = all_artifacts st
    ∧ all_events st0 = all_events st
    ∧ running_context st0 = running_context st
    ∧ last_result st0 = last_result st
    ∧ tick st0 = tick st).
  { unfold try_stage.
    destruct Hraise as [->|(plugin & -> & [->|[-> ->]])];
      eexists; (split; [reflexivity|]); repeat split. }
  destruct Htry as (st0 & Htry & Hex & Hsk & Hfa & Hfi & Har & Hev & Hrc
                    & Hlr & Htick).
  unfold stage_step, execute_stage. rewrite Hcond, Htry.
  unfold handle_failure, stage_error_event.
  destruct (stage_optional stage); cbn [negb flow_state];
    eexists; (split; [reflexivity|]); cbn;
    rewrite ?Hex, ?Hsk, ?Hfa, ?Hfi, ?Har, ?Hev, ?Hrc, ?Hlr, ?Htick;
    repeat split; try discriminate.
  intros _. eexists. repeat split.
Qed.

Lemma failed_stage_contributes_nothing_witness :
  let st := initial_state env0 reg_gate_raises job0 "quicklook" quicklook in
  ∃ st1 r,
    stage_step env0 job0 "quicklook" ctx0 0 gate_stage st = Return st1 r
    ∧ stages_executed st1 = []
    ∧ stages_failed st1 = ["gate"]
    ∧ all_findings st1 = []
    ∧ per_error r = Some "Stage gate failed: boom".
Proof.
  intros st.
  destruct (failed_stage_contributes_nothing env0 job0 "quicklook" ctx0 0
              gate_stage st
              (get_instance registry_env0 reg_gate_raises "umbriel"
                 (Some (stage_config gate_stage))).1
              (Exn RuntimeError "boom"))
    as (st1 & _ & Hex & _ & Hfa & Hfi & _ & _ & _ & _ & _ & Hret).
  - reflexivity.
  - right.
    exists (gate_instance
              (constant_plugin "Umbriel" (inl (Exn RuntimeError "boom")))).
    split; [vm_compute; reflexivity|]. right. split; reflexivity.
  - destruct (Hret eq_refl) as (r & Hstep & _ & Herr).
    exists st1, r. repeat split; assumption.
Defined.

(** X8: when the completion callback raises after a stage has run, the
    stage is recorded both as executed and as failed: its name is in
    both lists, its findings and artifacts stay aggregated and its
    result stays the previous result, and the failure is handled like
    any other (the loop goes on past an optional stage, and the run
    halts with an error on any other). *)
Theorem callback_failure_records_stage_twice (env : ExecEnv) (job : Job)
    (pipeline_id : string) (base_ctx : JobContext) (start_time : Z)
    (stage : PipelineStage) (st : LoopState) (reg1 : PluginRegistry)
    (plugin : Plugin) (returned : PluginResult) (e : exn) :
  _should_execute_stage env stage (last_result st) (running_context st)
  = inr true →
  get_instance (registry_env env) (registry st) (stage_plugin_id stage)
    (Some (stage_config stage)) = (reg1, inr plugin) →
  validate plugin (stage_context job base_ctx st) = None →
  run plugin (stage_context job base_ctx st) = inr returned →
  stage_callback env (stage_name stage) (annotate stage returned) = Some e →
  ∃ st1,
    flow_state (stage_step env job pipeline_id base_ctx start_time stage st)
    = st1
    ∧ stages_executed st1 = stages_executed st ++ [stage_name stage]
    ∧ stages_failed st1 = stages_failed st ++ [stage_name stage]
    ∧ all_findings st1
      = all_findings st ++ (annotate_finding stage <$> pr_findings returned)
    ∧ all_artifacts st1
      = all_artifacts st ++ (annotate_artifact stage <$> pr_artifacts returned)
    ∧ last_result st1 = Some (annotate stage returned)
    ∧ (stage_optional stage = true →
       stage_step env job pipeline_id base_ctx start_time stage st
       = Continue st1)
    ∧ (stage_optional stage = false →
       ∃ r, stage_step env job pipeline_id base_ctx start_time stage st
            = Return st1 r
            ∧ per_stages_executed r = stages_executed st ++ [stage_name stage]
            ∧ per_stages_failed r = stages_failed st ++ [stage_name stage]
            ∧ per_error r
              = Some ("Stage " +:+ stage_name stage +:+ " failed: "
                      +:+ exn_str e)).
Proof.
  intros Hcond Hget Hval Hrun Hcb.
  unfold stage_step, execute_stage, try_stage.
  rewrite Hcond, Hget, Hval, Hrun, Hcb. unfold handle_failure.
  destruct (stage_optional stage); cbn [negb flow_state];
    eexists; (split; [reflexivity|]); cbn; repeat split; try discriminate.
  intros _. eexists. repeat split.
Qed.

Lemma callback_failure_records_stage_twice_witness :
  let st := initial_state env_callback_raises reg_findings job0 "quicklook"
              quicklook in
  ∃ st1 r,
    stage_step env_callback_raises job0 "quicklook" ctx0 0 gate_stage st
    = Return st1 r
    ∧ per_stages_executed r = ["gate"]
    ∧ per_stages_failed r = ["gate"]
    ∧ length (all_findings st1) = 2%nat
    ∧ per_error r = Some "Stage gate failed: callback failed".
Proof.
  intros st.
  destruct (callback_failure_records_stage_twice env_callback_raises job0
              "quicklook" ctx0 0 gate_stage st
              (get_instance registry_env0 reg_findings "umbriel"
                 (Some (stage_config gate_stage))).1
              (gate_instance (constant_plugin "Umbriel" (inr gate_result)))
              gate_result (Exn RuntimeError "callback failed"))
    as (st1 & _ & _ & _ & Hfi & _ & _ & _ & Hret);
    [reflexivity | vm_compute; reflexivity | reflexivity | reflexivity
    | reflexivity |].
  destruct (Hret eq_refl) as (r & Hstep & Hex & Hfa & Herr).
  exists st1, r. repeat split; try assumption.
  rewrite Hfi. reflexivity.
Defined.

(** X9: a pipeline context whose "_risk_score" entry is not a number
    makes the condition of an [on_high_risk] stage raise a TypeError.
    The condition is evaluated outside the [try]: the exception is not
    recorded as a stage failure, it ends the loop at once, with the
    locals untouched, and leaves [execute]. *)
Theorem non_numeric_risk_entry_raises (env : ExecEnv) (job : Job)
    (pipeline_id : string) (base_ctx : JobContext) (start_time : Z)
    (stage : PipelineStage) (rest : list PipelineStage) (st : LoopState)
    (last : PluginResult) (v : pyval) :
  stage_condition stage = on_high_risk →
  last_result st = Some last →
  running_context st !! "_risk_score" = Some v →
  non_numeric v →
  run_stages env job pipeline_id base_ctx start_time (stage :: rest) st
  = Raised st (Exn TypeError "'>=' not supported").
Proof.
  intros Hcond Hlast Hv Hnon. cbn. unfold stage_step, _should_execute_stage.
  rewrite Hcond, Hlast, Hv. cbn.
  destruct (decide (on_high_risk = always)) as [Habs|_]; [discriminate|].
  by destruct v.
Qed.

Lemma non_numeric_risk_entry_raises_witness :
  run_stages env0 job0 "release-watch" ctx0 0 [trace_deltas_stage] st_labelled
  = Raised st_labelled (Exn TypeError "'>=' not supported").
Proof.
  apply (non_numeric_risk_entry_raises env0 job0 "release-watch" ctx0 0
           trace_deltas_stage [] st_labelled labelling_result (VStr "high"));
    [reflexivity | reflexivity | reflexivity | exact I].
Defined.

(** The whole run of release-watch with the labelling differ: [execute]
    raises the TypeError. *)
Example labelled_risk_ends_execute :
  (execute env0 reg_labelling job0 "release-watch" ctx0).2
  = inl (Exn TypeError "'>=' not supported").
Proof. vm_compute. reflexivity. Qed.

End OneStage.


(** ** The executor: the risk score of a result *)

Section RiskBounds.
Import Fixtures.

Variable Q : PluginResult → Prop.
Variable env : ExecEnv.

Lemma load_results (reg reg1 : PluginRegistry) (id : string)
    (out : Exc PluginClass) :
  registry_results Q (registry_env env) reg →
  load (registry_env env) reg id = (reg1, out) →
  registry_results Q (registry_env env) reg1
  ∧ ∀ cls, out = inr cls → class_results Q cls.
Proof.
  intros (Hp & Hi & Himp). unfold load.
  destruct (_plugins reg !! id) as [c|] eqn:Hc.
  { intros [= <- <-]. split; [by repeat split|].
    intros cls [= <-]. exact (Hp _ _ Hc). }
  destruct (_manifests reg !! id);
    [|intros [= <- <-]; split; [by repeat split|discriminate]].
  destruct (import_plugin (registry_env env) id) as [e|c] eqn:Himport.
  { intros [= <- <-]. split; [by repeat split|discriminate]. }
  intros [= <- <-]. pose proof (Himp _ _ Himport) as Hcls.
  split; [|by intros cls [= <-]].
  repeat split; cbn; [|exact Hi|exact Himp]. by apply map_Forall_insert_2.
Qed.

Lemma get_instance_results (reg reg1 : PluginRegistry) (id : string)
    (config : option dict) (got : Exc Plugin) :
  registry_results Q (registry_env env) reg →
  get_instance (registry_env env) reg id config = (reg1, got) →
  registry_results Q (registry_env env) reg1
  ∧ ∀ inst, got = inr inst → class_results Q (p_class inst).
Proof.
  intros Hreg. unfold get_instance.
  destruct (hash_items (registry_env env) (default ∅ config)) as [e|h].
  { intros [= <- <-]. split; [exact Hreg|discriminate]. }
  destruct (_instances reg !! cache_key id h) as [cached|] eqn:Hc.
  { intros [= <- <-]. split; [exact Hreg|]. intros inst [= <-].
    destruct Hreg as (_ & Hi & _). exact (Hi _ _ Hc). }
  destruct (load (registry_env env) reg id) as [reg0 loaded] eqn:Hload.
  destruct (load_results _ _ _ _ Hreg Hload) as ((Hp & Hi & Himp) & Hcls).
  destruct loaded as [e|cls];
    [intros [= <- <-]; split; [by repeat split|discriminate]|].
  destruct (_manifests reg0 !! id) as [manifest|].
  - intros [= <- <-]. split.
    + repeat split; cbn; [exact Hp| |exact Himp].
      apply map_Forall_insert_2; [|exact Hi]. by apply Hcls.
    + intros inst [= <-]. by apply Hcls.
  - intros [= <- <-]. split; [by repeat split|discriminate].
Qed.

End RiskBounds.

Section RiskBoundsRun.
Import Fixtures.

Variable env : ExecEnv.
Variable job : Job.
Variable pipeline_id : string.
Variable base_ctx : JobContext.
Variable start_time : Z.

Lemma py_max_bounds (a b : Qc) :
  (0 ≤ a)%Qc → (a ≤ 1)%Qc → (b ≤ 1)%Qc →
  (0 ≤ py_max a b)%Qc ∧ (py_max a b ≤ 1)%Qc.
Proof.
  intros H0 H1 Hb. pose proof (py_max_ge_left a b) as Hge.
  split; [by eapply Qcle_trans|]. unfold py_max. by case_bool_decide.
Qed.

Lemma step_risk_bounds (stage : PipelineStage) (st : LoopState) :
  registry_results valid_risk (registry_env env) (registry st)
  ∧ (0 ≤ max_risk st)%Qc ∧ (max_risk st ≤ 1)%Qc →
  let st1 := flow_state
               (stage_step env job pipeline_id base_ctx start_time stage st) in
  registry_results valid_risk (registry_env env) (registry st1)
  ∧ (0 ≤ max_risk st1)%Qc ∧ (max_risk st1 ≤ 1)%Qc.
Proof.
  intros (Hreg & H0 & H1). cbn zeta.
  unfold stage_step, execute_stage.
  destruct (_should_execute_stage env stage (last_result st)
              (running_context st)) as [e|[|]]; cbn; [by split| |by split].
  assert (Htry : ∀ st2 out,
            try_stage env job base_ctx stage st = (st2, out) →
            registry_results valid_risk (registry_env env) (registry st2)
            ∧ (0 ≤ max_risk st2)%Qc ∧ (max_risk st2 ≤ 1)%Qc).
  { intros st2 out. unfold try_stage.
    destruct (get_instance (registry_env env) (registry st)
                (stage_plugin_id stage) (Some (stage_config stage)))
      as [reg1 got] eqn:Hget.
    destruct (get_instance_results _ _ _ _ _ _ _ Hreg Hget) as [Hreg1 Hinst].
    destruct got as [e|plugin]; [by intros [= <- _]|].
    destruct (validate plugin (stage_context job base_ctx st));
      [by intros [= <- _]|].
    destruct (run plugin (stage_context job base_ctx st))
      as [e|returned] eqn:Hrun; [by intros [= <- _]|].
    assert (Hrisk : (0 ≤ default (max_risk st)
               match risk_truthy (pr_risk_score (annotate stage returned)) with
               | Some r => Some (py_max (max_risk st) r)
               | None => None
               end)%Qc
             ∧ (default (max_risk st)
               match risk_truthy (pr_risk_score (annotate stage returned)) with
               | Some r => Some (py_max (max_risk st) r)
               | None => None
               end ≤ 1)%Qc).
    { cbn [annotate pr_risk_score].
      pose proof (Hinst _ eq_refl _ _ _ Hrun) as Hvalid. unfold valid_risk in Hvalid.
      unfold risk_truthy. destruct (pr_risk_score returned) as [q|]; cbn;
        [|by split].
      destruct (decide (q = 0%Qc)); cbn; [by split|].
      destruct (Hvalid q eq_refl) as [_ Hq1]. by apply py_max_bounds. }
    destruct (stage_callback env (stage_name stage) (annotate stage returned));
      intros [= <- _]; cbn; by split. }
  destruct (try_stage env job base_ctx stage st) as [st2 [e|result]] eqn:Ht;
    specialize (Htry _ _ eq_refl).
  - unfold handle_failure. by destruct (stage_optional stage).
  - by destruct (pr_skip_remaining result).
Qed.

Lemma steps_risk_bounds (st st1 : LoopState) (l : list PipelineStage) :
  steps env job pipeline_id base_ctx start_time st l st1 →
  registry_results valid_risk (registry_env env) (registry st)
  ∧ (0 ≤ max_risk st)%Qc ∧ (max_risk st ≤ 1)%Qc →
  registry_results valid_risk (registry_env env) (registry st1)
  ∧ (0 ≤ max_risk st1)%Qc ∧ (max_risk st1 ≤ 1)%Qc.
Proof.
  intros Hsteps. induction Hsteps as [st|st st1 st2 stage l Hstep _ IH].
  - done.
  - intros Hinv. apply IH. rewrite <- Hstep. by apply step_risk_bounds.
Qed.

End RiskBoundsRun.

Section RiskBoundsResult.
Import Fixtures.

(** X10: the risk score of a result lies between 0 and 1 whenever the
    risk scores the plugins report do (as the PluginResult schema
    requires of them): it starts at 0 and is only ever replaced by the
    maximum of itself and a reported score. *)
Theorem risk_score_within_bounds (env : ExecEnv) (reg reg1 : PluginRegistry)
    (job : Job) (pipeline_id : string) (base_ctx : JobContext)
    (r : PipelineExecutionResult) :
  registry_results valid_risk (registry_env env) reg →
  execute env reg job pipeline_id base_ctx = (reg1, inr r) →
  (0 ≤ per_risk_score r)%Qc ∧ (per_risk_score r ≤ 1)%Qc.
Proof.
  intros Hreg Hexec.
  destruct (execute_end _ _ _ _ _ _ _ Hexec)
    as (p & done & rest & st1 & _ & _ & Hsteps
        & _ & _ & _ & _ & _ & _ & -> & _).
  apply steps_risk_bounds in Hsteps; [tauto|].
  split; [exact Hreg|]. cbn. split; [apply Qcle_refl|discriminate].
Qed.

Lemma registry_of_results (Q : PluginResult → Prop) (env : RegistryEnv)
    (l : list (string * PluginClass)) :
  Forall (λ pc, class_results Q pc.2) l →
  (∀ id cls, import_plugin env id = inr cls → class_results Q cls) →
  registry_results Q env (registry_of l).
Proof.
  intros Hl Himp. induction Hl as [|pc l Hpc _ IH]; cbn.
  - repeat split; [apply map_Forall_empty..|exact Himp].
  - destruct IH as (Hp & Hi & _). repeat split; cbn; [|exact Hi|exact Himp].
    by apply map_Forall_insert_2.
Qed.

Lemma risk_score_within_bounds_witness :
  ∃ r, (execute env0 reg_rescoring job0 "release-watch" ctx0).2 = inr r
       ∧ per_risk_score r = Q2Qc (9 # 10)
       ∧ (0 ≤ per_risk_score r)%Qc ∧ (per_risk_score r ≤ 1)%Qc.
Proof.
  destruct (execute env0 reg_rescoring job0 "release-watch" ctx0)
    as [reg1 [e|r]] eqn:Hrun; [vm_compute in Hrun; discriminate|].
  exists r. split; [reflexivity|]. split.
  - vm_compute in Hrun. by injection Hrun as <- <-.
  - apply (risk_score_within_bounds env0 reg_rescoring reg1 job0
             "release-watch" ctx0 r); [|exact Hrun].
    apply registry_of_results; [|intros id cls Himp; discriminate].
    repeat apply Forall_cons_2; try apply Forall_nil_2.
    + intros config ctx r0 Hrun0.
      assert (Hr0 : r0 = rescoring_result ∨ r0 = diff_result).
      { cbn in Hrun0.
        destruct (config !! "compute_risk") as [[| [|] | | | |]|];
          [right|left|right..]; congruence. }
      intros risk Hrisk.
      destruct Hr0 as [-> | ->]; [discriminate Hrisk|].
      assert (risk = Q2Qc (9 # 10)) as -> by (cbn in Hrisk; congruence).
      split; apply (bool_decide_unpack _); vm_compute; exact I.
    + intros config ctx r0 Hrun0 q Hq.
      assert (r0 = plain_result true) as -> by (cbn in Hrun0; congruence).
      discriminate Hq.
    + intros config ctx r0 Hrun0 q Hq.
      assert (r0 = plain_result true) as -> by (cbn in Hrun0; congruence).
      discriminate Hq.
Defined.

End RiskBoundsResult.
